(** * flask-social-scheduler: a shallow embedding of [app.py]

    The program is a Flask application that stores posts in [posts.db],
    keeps one APScheduler date job per post in [jobs.db] and marks a post
    "posted" when its job fires.  The embedding follows [src/app.py]
    function by function; the stale draft [src/tempCodeRunnerFile.py] is
    embedded in [Module TempCodeRunnerFile] at the end of the definitions.

    Modelling boundary.  The SQLAlchemy table is a finite map from the
    primary key [id] to the remaining columns; the job store is a finite map
    from job ids to jobs; the upload folder is a finite set of file names.
    Calls into collaborators that the source guards with [try]/[except]
    (the job store, [os.remove]) may raise, as decided by the environment
    [Env].  Form parsing is outside the model: a request carries the already
    parsed fields.  A row keeps its scheduled time as the code assigned it,
    naive or aware; [db.create_all()] does nothing to the rows and is left
    out.

    Threads.  The routes, the timer thread of the scheduler and the workers
    that run its callbacks are operations [Op] that take turns on the world;
    a firing is two operations, the timer thread discarding the entry and a
    worker running the callback, so that a route can come between them.
    While the module is imported the timer thread can block holding the lock
    of the job stores; a registration attempted then does not return, which
    the result [Deadlock] stands for. *)

From Stdlib Require Import ZArith List Sorting.Sorted Sorting.Permutation.
From stdpp Require Import base gmap strings pretty list fin_maps.

Open Scope string_scope.
Open Scope list_scope.
Open Scope Z_scope.

(** ** Dates *)

(** A Python [datetime]: the wall-clock reading in microseconds and the
    optional [tzinfo], an offset from UTC in microseconds.  [tzinfo = None]
    is a naive datetime. *)
Record datetime := mk_datetime { wall : Z; tzinfo : option Z }.

Definition timedelta (hours minutes : Z) : Z :=
  (hours * 3600 + minutes * 60) * 1000000.

(** [IST = timezone(timedelta(hours=5, minutes=30))] *)
Definition IST : Z := timedelta 5 30.

(** [d.replace(tzinfo=tz)]: same wall clock, new offset. *)
Definition replace_tzinfo (d : datetime) (tz : Z) : datetime :=
  {| wall := wall d; tzinfo := Some tz |}.

(** The UTC instant of an aware datetime. *)
Definition utc_instant (d : datetime) : option Z :=
  match tzinfo d with
  | Some off => Some (wall d - off)
  | None => None
  end.

(** [a <= b] on datetimes.  Python compares two aware datetimes by their UTC
    instants, two naive ones by their wall clocks, and raises [TypeError]
    (here [None]) on a naive/aware mix. *)
Definition datetime_le (a b : datetime) : option bool :=
  match tzinfo a, tzinfo b with
  | Some oa, Some ob => Some (wall a - oa <=? wall b - ob)
  | None, None => Some (wall a <=? wall b)
  | _, _ => None
  end.

(** ** The post table *)

(** The columns of [class Post(db.Model)] other than the primary key [id],
    which is the key of the table. *)
Record Post := mk_Post {
  title : string;
  content : string;
  platform : string;
  scheduled_time : datetime;
  status : string;
  image_filename : option string
}.

Definition set_status (s : string) (p : Post) : Post :=
  {| title := title p; content := content p; platform := platform p;
     scheduled_time := scheduled_time p; status := s;
     image_filename := image_filename p |}.

Definition set_image_filename (f : option string) (p : Post) : Post :=
  {| title := title p; content := content p; platform := platform p;
     scheduled_time := scheduled_time p; status := status p;
     image_filename := f |}.

(** ** The scheduler *)

(** A job of the [BackgroundScheduler]: [func] is always [publish_post] and
    [trigger] always ['date'], so a job is its [run_date] and the post id in
    [args]. *)
Record Job := mk_Job { run_date : datetime; args : Z }.

(** [_job_id(post_id) = f"post_{post_id}"] *)
Definition _job_id (post_id : Z) : string := "post_" +:+ pretty post_id.

(** ** Effects *)

Inductive Level := INFO | WARNING | ERROR.

(** One constructor per [logging] call of [app.py]. *)
Inductive LogMsg :=
| PublishNotFound (post_id : Z)
| PublishSkipped (post_id : Z) (current : string)
| PublishMarked (post_id : Z)
| StartupFound (n : nat)
| StartupPast (post_id : Z)
| StartupScheduled (post_id : Z) (run_time : datetime)
| StartupAddFailed (post_id : Z)
| ScheduleOk (post_id : Z)
| ScheduleFailed (post_id : Z)
| EditOk (post_id : Z)
| EditFailed (post_id : Z)
| DeleteRemoved (post_id : Z)
| DeleteJobNotFound (post_id : Z)
| DeleteImageFailed (path : string).

(** Calls that leave the process or the request, in program order. *)
Inductive Event :=
| Logged (lvl : Level) (msg : LogMsg)
| Emitted (event : string) (post_id : Z) (new_status : string)
| CallAddJob (job_id : string) (run : datetime) (post_id : Z)
| CallRemoveJob (job_id : string)
| CallOsRemove (path : string)
| CallSave (path : string)
| SessionAdd (post_id : Z)
| SessionDelete (post_id : Z)
| Commit.

Inductive Exn :=
| NotFound404
| TypeError
| JobStoreError (job_id : string)
| ConflictingIdError (job_id : string)
| JobLookupError (job_id : string)
| OSError (path : string)
| Deadlock.   (* no exception: the call never returns *)

(** What a view function hands back to Flask. *)
Inductive Response :=
| Redirect (endpoint : string)
| Render (template : string) (posts : list (Z * Post)).

(** ** The world *)

Record World := mk_World {
  session : gmap Z Post;      (* the table as the ORM session sees it *)
  posts_db : gmap Z Post;     (* the rows committed to posts.db *)
  jobs : gmap string Job;     (* the job store jobs.db *)
  uploads : gset string;      (* file names in UPLOAD_FOLDER *)
  clock : Z;                  (* current UTC instant, microseconds *)
  trace : list Event          (* effects so far, oldest first *)
}.

(** What the program cannot control. *)
Record Env := mk_Env {
  secure_filename : string -> string;
  add_job_fails : string -> bool;    (* the job store rejects this job id *)
  os_remove_fails : string -> bool   (* os.remove raises on this path *)
}.

Definition with_session (s : gmap Z Post) (w : World) : World :=
  {| session := s; posts_db := posts_db w; jobs := jobs w;
     uploads := uploads w; clock := clock w; trace := trace w |}.

Definition with_posts_db (d : gmap Z Post) (w : World) : World :=
  {| session := session w; posts_db := d; jobs := jobs w;
     uploads := uploads w; clock := clock w; trace := trace w |}.

Definition with_jobs (j : gmap string Job) (w : World) : World :=
  {| session := session w; posts_db := posts_db w; jobs := j;
     uploads := uploads w; clock := clock w; trace := trace w |}.

Definition with_uploads (u : gset string) (w : World) : World :=
  {| session := session w; posts_db := posts_db w; jobs := jobs w;
     uploads := u; clock := clock w; trace := trace w |}.

Definition record (e : Event) (w : World) : World :=
  {| session := session w; posts_db := posts_db w; jobs := jobs w;
     uploads := uploads w; clock := clock w; trace := trace w ++ [e] |}.

(** ** A state and exception monad

    Python keeps the state changes made before an exception is raised, so a
    computation returns the new world together with its result or its
    exception. *)
Definition M (A : Type) : Type := World -> World * (Exn + A).

Definition ret {A} (a : A) : M A := fun w => (w, inr a).

Definition raise {A} (e : Exn) : M A := fun w => (w, inl e).

Definition bind {A B} (m : M A) (k : A -> M B) : M B :=
  fun w => match m w with
           | (w', inr a) => k a w'
           | (w', inl e) => (w', inl e)
           end.

(** [try: body  except Exception as e: handler(e)].  A call that never
    returns raises nothing, so no handler runs after it. *)
Definition try_except {A} (body : M A) (handler : Exn -> M A) : M A :=
  fun w => match body w with
           | (w', inl Deadlock) => (w', inl Deadlock)
           | (w', inl e) => handler e w'
           | r => r
           end.

Declare Scope M_scope.
Delimit Scope M_scope with M.
Notation "'let*' x ':=' m 'in' k" := (bind m (fun x => k))
  (at level 10, x pattern, m at level 100, k at level 200) : M_scope.
Notation "m '>>' k" := (bind m (fun _ => k))
  (at level 100, k at level 200, right associativity) : M_scope.
Local Open Scope M_scope.

(** [for x in l: body(x)] *)
Fixpoint for_each {A} (l : list A) (body : A -> M unit) : M unit :=
  match l with
  | [] => ret tt
  | x :: l' => body x >> for_each l' body
  end.

(** *** Primitives *)

Definition effect (e : Event) : M unit := fun w => (record e w, inr tt).

Definition logging (lvl : Level) (msg : LogMsg) : M unit :=
  effect (Logged lvl msg).

(** [socketio.emit(event, {"post_id": ..., "status": ...})] *)
Definition socketio_emit (event : string) (post_id : Z) (st : string) : M unit :=
  effect (Emitted event post_id st).

(** [datetime.now(tz)] *)
Definition datetime_now (tz : Z) : M datetime :=
  fun w => (w, inr {| wall := clock w + tz; tzinfo := Some tz |}).

(** [Post.query.get(id)] *)
Definition query_get (post_id : Z) : M (option Post) :=
  fun w => (w, inr (session w !! post_id)).

(** [Post.query.get_or_404(id)] *)
Definition query_get_or_404 (post_id : Z) : M Post :=
  let* found := query_get post_id in
  match found with
  | Some post => ret post
  | None => raise NotFound404
  end.

(** An attribute assignment on a loaded row, such as [post.status = ...]. *)
Definition session_update (post_id : Z) (f : Post -> Post) : M unit :=
  fun w => (with_session (alter f post_id (session w)) w, inr tt).

(** The key SQLite gives the next inserted row: one more than the largest
    key in use, and 1 in an empty table. *)
Definition next_id (t : gmap Z Post) : Z :=
  1 + foldr Z.max 0 (map fst (map_to_list t)).

(** [db.session.add(new_post)]; the result is the id the row is given. *)
Definition session_add (new_post : Post) : M Z :=
  fun w => let new_id := next_id (session w) in
           (record (SessionAdd new_id)
              (with_session (<[new_id := new_post]> (session w)) w),
            inr new_id).

(** [db.session.delete(post)] *)
Definition session_delete (post_id : Z) : M unit :=
  fun w => (record (SessionDelete post_id)
              (with_session (delete post_id (session w)) w), inr tt).

(** [db.session.commit()] *)
Definition session_commit : M unit :=
  fun w => (record Commit (with_posts_db (session w) w), inr tt).

(** [scheduler.add_job(func=publish_post, trigger='date', run_date=...,
    args=[post_id], id=job_id, replace_existing=...)].  With
    [replace_existing] an entry under the same id is replaced; without it a
    second entry under a used id is refused. *)
Definition scheduler_add_job (env : Env) (run : datetime) (post_id : Z)
    (job_id : string) (replace_existing : bool) : M unit :=
  fun w =>
    let w1 := record (CallAddJob job_id run post_id) w in
    if add_job_fails env job_id then (w1, inl (JobStoreError job_id))
    else match jobs w !! job_id with
         | Some _ =>
             if replace_existing
             then (with_jobs (<[job_id := mk_Job run post_id]> (jobs w)) w1, inr tt)
             else (w1, inl (ConflictingIdError job_id))
         | None =>
             (with_jobs (<[job_id := mk_Job run post_id]> (jobs w)) w1, inr tt)
         end.

(** [scheduler.remove_job(job_id)]: raises [JobLookupError] when there is no
    such job. *)
Definition scheduler_remove_job (job_id : string) : M unit :=
  fun w =>
    let w1 := record (CallRemoveJob job_id) w in
    match jobs w !! job_id with
    | Some _ => (with_jobs (delete job_id (jobs w)) w1, inr tt)
    | None => (w1, inl (JobLookupError job_id))
    end.

(** [os.path.exists(os.path.join(UPLOAD_FOLDER, name))] *)
Definition os_path_exists (name : string) : M bool :=
  fun w => (w, inr (bool_decide (name ∈ uploads w))).

(** [os.remove(os.path.join(UPLOAD_FOLDER, name))] *)
Definition os_remove (env : Env) (name : string) : M unit :=
  fun w =>
    let w1 := record (CallOsRemove name) w in
    if os_remove_fails env name then (w1, inl (OSError name))
    else (with_uploads (uploads w ∖ {[name]}) w1, inr tt).

(** [image_file.save(os.path.join(UPLOAD_FOLDER, name))] *)
Definition file_save (name : string) : M unit :=
  fun w => (with_uploads ({[name]} ∪ uploads w) (record (CallSave name) w), inr tt).

(** ** [publish_post] (app.py, lines 49-66) *)

Definition publish_post (post_id : Z) : M unit :=
  let* found := query_get post_id in
  match found with
  | None => logging WARNING (PublishNotFound post_id)
  | Some post =>
      if negb (String.eqb (status post) "scheduled")
      then logging INFO (PublishSkipped post_id (status post))
      else
        session_update post_id (set_status "posted") >>
        session_commit >>
        socketio_emit "status_update" post_id "posted" >>
        logging INFO (PublishMarked post_id)
  end.

(** ** Startup reconciliation (app.py, lines 69-96) *)

(** A full scan of the table yields the rows in the order of their primary
    key, the rowid. *)
Fixpoint insert_by_id (r : Z * Post) (l : list (Z * Post)) : list (Z * Post) :=
  match l with
  | [] => [r]
  | x :: l' => if r.1 <? x.1 then r :: x :: l' else x :: insert_by_id r l'
  end.

Definition rows_by_id (t : gmap Z Post) : list (Z * Post) :=
  foldr insert_by_id [] (map_to_list t).

(** [Post.query.filter_by(status=s).all()] *)
Definition query_filter_by_status (s : string) : M (list (Z * Post)) :=
  fun w => (w, inr (filter (fun r => String.eqb (status r.2) s)
                      (rows_by_id (session w)))).

(** A naive [run_date] is read in the scheduler's time zone,
    [BackgroundScheduler(timezone=IST)]. *)
Definition job_due (j : Job) (now_utc : Z) : bool :=
  match tzinfo (run_date j) with
  | Some off => wall (run_date j) - off <=? now_utc
  | None => wall (run_date j) - IST <=? now_utc
  end.

(** [scheduler.start()] (line 42) runs before the loop, while the module is
    still being imported.  The timer thread it starts looks for due jobs at
    once; loading a due job from [jobs.db] resolves the reference to
    [publish_post], an import of the module that waits for the import in
    progress, and the thread waits holding the lock of the job stores.  With
    no due job in the store the thread loads nothing and sleeps. *)
Definition timer_thread_blocked (w : World) : bool :=
  existsb (fun kj => job_due kj.2 (clock w)) (map_to_list (jobs w)).

(** [scheduler.add_job] as the loop calls it, during the import: it needs
    the lock of the job stores, and never returns while the timer thread is
    blocked holding it. *)
Definition scheduler_add_job_at_import (env : Env) (run : datetime) (post_id : Z)
    (job_id : string) (replace_existing : bool) : M unit :=
  fun w =>
    if timer_thread_blocked w
    then (record (CallAddJob job_id run post_id) w, inl Deadlock)
    else scheduler_add_job env run post_id job_id replace_existing w.

(** The body of [for post in scheduled_posts]. *)
Definition startup_body (env : Env) (row : Z * Post) : M unit :=
  let post_id := row.1 in
  let run_time := scheduled_time row.2 in
  let run_time := match tzinfo run_time with
                  | None => replace_tzinfo run_time IST
                  | Some _ => run_time
                  end in
  let* now := datetime_now IST in
  match datetime_le run_time now with
  | None => raise TypeError
  | Some true =>
      logging INFO (StartupPast post_id) >>
      publish_post post_id
  | Some false =>
      try_except
        (scheduler_add_job_at_import env run_time post_id (_job_id post_id) true >>
         logging INFO (StartupScheduled post_id run_time))
        (fun _ => logging ERROR (StartupAddFailed post_id))
  end.

Definition startup (env : Env) : M unit :=
  let* scheduled_posts := query_filter_by_status "scheduled" in
  logging INFO (StartupFound (length scheduled_posts)) >>
  for_each scheduled_posts (startup_body env).

(** ** Routes *)

Inductive Method := GET | POST.

(** The parsed request: [request.method], the four form fields (the
    scheduled time as [strptime] returns it, naive) and the file name of
    [request.files['image']] when the request has such a part. *)
Record Request := mk_Request {
  method : Method;
  form_title : string;
  form_content : string;
  form_platform : string;
  form_scheduled_time : Z;
  files_image : option string
}.

(** [ORDER BY scheduled_time DESC]: the column is stored without its offset,
    so rows compare by wall clock.  Insertion keeps equal keys in their
    incoming order. *)
Fixpoint insert_desc (r : Z * Post) (l : list (Z * Post)) : list (Z * Post) :=
  match l with
  | [] => [r]
  | x :: l' =>
      if wall (scheduled_time x.2) <? wall (scheduled_time r.2)
      then r :: x :: l'
      else x :: insert_desc r l'
  end.

Definition order_by_scheduled_time_desc (l : list (Z * Post)) : list (Z * Post) :=
  foldr insert_desc [] l.

(** [index] (lines 99-102) *)
Definition index : M Response :=
  fun w =>
    let posts := order_by_scheduled_time_desc (map_to_list (session w)) in
    (w, inr (Render "index.html" posts)).

(** The image part of [schedule] (lines 116-121): the stored file name. *)
Definition schedule_image (env : Env) (req : Request) : M (option string) :=
  match files_image req with
  | Some filename =>
      if negb (String.eqb filename "")
      then let image_filename := secure_filename env filename in
           file_save image_filename >>
           ret (Some image_filename)
      else ret None
  | None => ret None
  end.

(** [schedule] (lines 104-142) *)
Definition schedule (env : Env) (req : Request) : M Response :=
  match method req with
  | POST =>
      let scheduled_time :=
        replace_tzinfo (mk_datetime (form_scheduled_time req) None) IST in
      let* image_filename := schedule_image env req in
      let new_post :=
        mk_Post (form_title req) (form_content req) (form_platform req)
                scheduled_time "scheduled" image_filename in
      let* new_id := session_add new_post in
      session_commit >>
      try_except
        (scheduler_add_job env scheduled_time new_id (_job_id new_id) true >>
         logging INFO (ScheduleOk new_id))
        (fun _ => logging ERROR (ScheduleFailed new_id)) >>
      ret (Redirect "index")
  | GET => ret (Render "schedule.html" [])
  end.

(** Python truthiness of [post.image_filename]: neither [None] nor empty. *)
Definition truthy (f : option string) : option string :=
  match f with
  | Some name => if String.eqb name "" then None else Some name
  | None => None
  end.

(** The image part of [edit] (lines 153-165). *)
Definition edit_image (env : Env) (post_id : Z) (post : Post) (req : Request) : M unit :=
  match files_image req with
  | Some filename =>
      if negb (String.eqb filename "")
      then
        match truthy (image_filename post) with
        | Some old =>
            let* there := os_path_exists old in
            if there then os_remove env old else ret tt
        | None => ret tt
        end >>
        let new_filename := secure_filename env filename in
        file_save new_filename >>
        session_update post_id (set_image_filename (Some new_filename))
      else ret tt
  | None => ret tt
  end.

Definition edit_fields (req : Request) (p : Post) : Post :=
  {| title := form_title req; content := form_content req;
     platform := form_platform req;
     scheduled_time :=
       replace_tzinfo (mk_datetime (form_scheduled_time req) None) IST;
     status := status p; image_filename := image_filename p |}.

(** [edit] (lines 144-180).  [edited] is the Python object [post] after the
    four assignments; its [scheduled_time] is the [run_date] of the job. *)
Definition edit (env : Env) (post_id : Z) (req : Request) : M Response :=
  let* post := query_get_or_404 post_id in
  match method req with
  | POST =>
      let edited := edit_fields req post in
      session_update post_id (edit_fields req) >>
      edit_image env post_id post req >>
      session_commit >>
      try_except
        (scheduler_add_job env (scheduled_time edited) post_id (_job_id post_id) true >>
         logging INFO (EditOk post_id))
        (fun _ => logging ERROR (EditFailed post_id)) >>
      ret (Redirect "index")
  | GET => ret (Render "edit.html" [(post_id, post)])
  end.

(** The image part of [delete] (lines 194-201). *)
Definition delete_image (env : Env) (post : Post) : M unit :=
  match truthy (image_filename post) with
  | Some image_path =>
      let* there := os_path_exists image_path in
      if there
      then try_except (os_remove env image_path)
             (fun _ => logging ERROR (DeleteImageFailed image_path))
      else ret tt
  | None => ret tt
  end.

(** [delete] (lines 182-207) *)
Definition delete (env : Env) (post_id : Z) : M Response :=
  let* post := query_get_or_404 post_id in
  let job_id := _job_id post_id in
  try_except
    (scheduler_remove_job job_id >>
     logging INFO (DeleteRemoved post_id))
    (fun _ => logging WARNING (DeleteJobNotFound post_id)) >>
  delete_image env post >>
  session_delete post_id >>
  session_commit >>
  ret (Redirect "index").

(** ** The scheduler's threads and the life of the process *)

(** The timer thread reaches the job [job_id]: when it is due, the thread
    hands the callback to the executor's worker pool and discards the entry,
    a date job with no further run time.  The result is the post id the
    callback was submitted with. *)
Definition scheduler_dequeue (job_id : string) : M (option Z) :=
  fun w =>
    match jobs w !! job_id with
    | Some j =>
        if job_due j (clock w)
        then (with_jobs (base.delete job_id (jobs w)) w, inr (Some (args j)))
        else (w, inr None)
    | None => (w, inr None)
    end.

(** A worker runs a submitted callback, [publish_post(post_id)], some time
    after the entry was discarded; a callback that is more than the grace
    time late is dropped and never runs. *)
Definition scheduler_callback (post_id : Z) : M unit := publish_post post_id.

(** Flask-SQLAlchemy removes the session when the application context is
    torn down: what was not committed is gone. *)
Definition teardown (w : World) : World := with_session (posts_db w) w.

Definition advance (dt : Z) (w : World) : World :=
  {| session := session w; posts_db := posts_db w; jobs := jobs w;
     uploads := uploads w; clock := clock w + Z.max 0 dt; trace := trace w |}.

(** The operations of the program: a process start, the four routes, the
    timer thread taking a due job off the store, a worker running a
    callback, and time passing.  The routes run in request threads, so any
    of them can come between [Dequeue] and the [Callback] it submitted. *)
Inductive Op :=
| Startup
| Index
| Schedule (req : Request)
| Edit (post_id : Z) (req : Request)
| Delete (post_id : Z)
| Dequeue (job_id : string)
| Callback (post_id : Z)
| Tick (dt : Z).

Definition step (env : Env) (op : Op) (w : World) : World :=
  match op with
  | Startup => teardown (startup env w).1
  | Index => teardown (index w).1
  | Schedule req => teardown (schedule env req w).1
  | Edit post_id req => teardown (edit env post_id req w).1
  | Delete post_id => teardown (delete env post_id w).1
  | Dequeue job_id => teardown (scheduler_dequeue job_id w).1
  | Callback post_id => teardown (scheduler_callback post_id w).1
  | Tick dt => advance dt w
  end.

(** A run: each operation meets its own environment. *)
Definition run (steps : list (Env * Op)) (w : World) : World :=
  foldl (fun w s => step s.1 s.2 w) w steps.

(** ** Observations *)

(** The notifications sent through [socketio.emit], oldest first. *)
Definition notifications_of (t : list Event) : list (string * Z * string) :=
  flat_map (fun e => match e with
                     | Emitted ev i st => [(ev, i, st)]
                     | _ => []
                     end) t.

Definition notifications (w : World) : list (string * Z * string) :=
  notifications_of (trace w).

(** [post'] is [post] marked posted: the status is "posted", every other
    column is as in [post]. *)
Definition marked_posted (post post' : Post) : Prop :=
  status post' = "posted" /\ title post' = title post /\
  content post' = content post /\ platform post' = platform post /\
  scheduled_time post' = scheduled_time post /\
  image_filename post' = image_filename post.

(** Everything but the log and the trace is as before. *)
Definition same_state (w w' : World) : Prop :=
  session w' = session w /\ posts_db w' = posts_db w /\ jobs w' = jobs w /\
  uploads w' = uploads w /\ clock w' = clock w.

(** The live scheduler entries whose callback is bound to [post_id]. *)
Definition entries_of (post_id : Z) (w : World) : gmap string Job :=
  filter (fun kj => args kj.2 = post_id) (jobs w).

(** Every live entry is stored under the job id derived from the post it is
    bound to. *)
Definition jobs_keyed (w : World) : Prop :=
  forall k j, jobs w !! k = Some j -> k = _job_id (args j).

(** No committed post with status "posted" has a live entry. *)
Definition posted_unscheduled (w : World) : Prop :=
  forall post_id post,
    posts_db w !! post_id = Some post -> status post = "posted" ->
    entries_of post_id w = ∅.

(** The invariant of the data model as the specification words it: a
    scheduled post has at most one live entry, a posted post has none. *)
Definition entry_invariant (w : World) : Prop :=
  forall post_id post,
    posts_db w !! post_id = Some post ->
    (status post = "scheduled" -> (size (entries_of post_id w) <= 1)%nat) /\
    (status post = "posted" -> entries_of post_id w = ∅).

(** The time the reconciliation compares with the clock: a naive
    [scheduled_time] is read in IST. *)
Definition normalized (d : datetime) : datetime :=
  match tzinfo d with
  | None => replace_tzinfo d IST
  | Some _ => d
  end.

(** The normalized scheduled time of the post is not after the instant
    [now_utc]. *)
Definition overdue (post : Post) (now_utc : Z) : bool :=
  match tzinfo (scheduled_time post) with
  | None => wall (scheduled_time post) - IST <=? now_utc
  | Some off => wall (scheduled_time post) - off <=? now_utc
  end.

(** The job store after the guarded registration
    [try: scheduler.add_job(..., id=_job_id(post_id), replace_existing=True)
     except Exception: ...]. *)
Definition registered (env : Env) (run : datetime) (post_id : Z)
    (js : gmap string Job) : gmap string Job :=
  if add_job_fails env (_job_id post_id) then js
  else <[_job_id post_id := mk_Job run post_id]> js.

(** The time a form field becomes: [strptime(...).replace(tzinfo=IST)]. *)
Definition form_time (req : Request) : datetime :=
  replace_tzinfo (mk_datetime (form_scheduled_time req) None) IST.

(** The sort key of [ORDER BY scheduled_time]. *)
Definition time_key (r : Z * Post) : Z := wall (scheduled_time r.2).

Definition later_first (a b : Z * Post) : Prop := time_key b <= time_key a.

Definition earlier_first (a b : Z * Post) : Prop := time_key a <= time_key b.

(** Consecutive elements of the list are related by [R]. *)
Definition adjacent_in_order {A} (R : A -> A -> Prop) (l : list A) : Prop :=
  forall n a b, l !! n = Some a -> l !! S n = Some b -> R a b.

(** The three ways an operation leaves a live entry for a posted post: a
    [POST] to [edit] for a post that is already posted, a reconciliation
    that publishes an overdue post whose entry is still in the job store,
    and a callback that publishes a post while an entry for it is in the job
    store: its own, which the timer thread has not discarded yet, or one
    that an [edit] has registered since. *)
Definition leaves_stale_entry (op : Op) (w : World) : Prop :=
  match op with
  | Edit post_id req =>
      method req = POST /\
      exists post, posts_db w !! post_id = Some post /\ status post = "posted"
  | Startup =>
      exists post_id post,
        posts_db w !! post_id = Some post /\ status post = "scheduled" /\
        overdue post (clock w) = true /\ entries_of post_id w <> ∅
  | Callback post_id =>
      exists post,
        posts_db w !! post_id = Some post /\ status post = "scheduled" /\
        entries_of post_id w <> ∅
  | _ => False
  end.

(** No operation of the history is one of those three, each taken in the
    world it runs in. *)
Fixpoint never_stale (steps : list (Env * Op)) (w : World) : Prop :=
  match steps with
  | [] => True
  | s :: rest => ~ leaves_stale_entry s.2 w /\ never_stale rest (step s.1 s.2 w)
  end.

(** No stored job is due: the timer thread finds nothing to load when the
    process starts. *)
Definition timer_idle (w : World) : Prop :=
  forall k j, jobs w !! k = Some j -> job_due j (clock w) = false.

(** [m] relates every world to the world it leaves by [R]. *)
Definition keeps {A} (R : World -> World -> Prop) (m : M A) : Prop :=
  forall w, R w (m w).1.

(** No notification was emitted on the way from [w] to [w']. *)
Definition quietly (w w' : World) : Prop := notifications w' = notifications w.

(** [try: body  except ConflictingIdError: handler]: any other exception
    passes through. *)
Definition try_except_conflict {A} (body : M A) (handler : M A) : M A :=
  fun w => match body w with
           | (w', inl (ConflictingIdError _)) => handler w'
           | r => r
           end.

(** The name under which an uploaded image is stored: none when the
    request has no image part or the part has an empty file name. *)
Definition uploaded_name (env : Env) (req : Request) : option string :=
  match files_image req with
  | Some filename =>
      if String.eqb filename "" then None else Some (secure_filename env filename)
  | None => None
  end.

(** The upload folder with the file [name], if any, added. *)
Definition with_file (name : option string) (u : gset string) : gset string :=
  match name with
  | Some n => {[ n ]} ∪ u
  | None => u
  end.

(** The file [edit] and [delete] go on to remove: the image the post
    records, when that name is not empty and the file is in the folder. *)
Definition stale_image (post : Post) (w : World) : option string :=
  match truthy (image_filename post) with
  | Some old => if bool_decide (old ∈ uploads w) then Some old else None
  | None => None
  end.

(** The world a [POST] to [edit] leaves when it reaches its end: the row
    [p] committed under [post_id], the upload folder [u], the events [evs]
    of the image step, then the commit and the guarded registration. *)
Definition edit_committed (env : Env) (post_id : Z) (req : Request) (w : World)
    (p : Post) (u : gset string) (evs : list Event) : World :=
  {| session := <[post_id := p]> (session w);
     posts_db := <[post_id := p]> (session w);
     jobs := registered env (form_time req) post_id (jobs w);
     uploads := u; clock := clock w;
     trace := trace w ++ evs ++
       [Commit; CallAddJob (_job_id post_id) (form_time req) post_id;
        if add_job_fails env (_job_id post_id)
        then Logged ERROR (EditFailed post_id)
        else Logged INFO (EditOk post_id)] |}.

(** [w'] stores posts under the same ids as [w]. *)
Definition same_ids (w w' : World) : Prop :=
  forall i, is_Some (posts_db w' !! i) <-> is_Some (posts_db w !! i).

(** ** The earlier draft, [tempCodeRunnerFile.py]

    The draft shares the table, the scheduler and the upload folder with
    [app.py]; its routes differ.  Only the routes the properties below speak
    of are embedded. *)
Module TempCodeRunnerFile.

(** [ORDER BY scheduled_time] *)
Fixpoint insert_asc (r : Z * Post) (l : list (Z * Post)) : list (Z * Post) :=
  match l with
  | [] => [r]
  | x :: l' =>
      if wall (scheduled_time r.2) <? wall (scheduled_time x.2)
      then r :: x :: l'
      else x :: insert_asc r l'
  end.

Definition order_by_scheduled_time (l : list (Z * Post)) : list (Z * Post) :=
  foldr insert_asc [] l.

(** [index] (lines 87-90) *)
Definition index : M Response :=
  fun w =>
    let posts := order_by_scheduled_time (map_to_list (session w)) in
    (w, inr (Render "index.html" posts)).

(** [edit] (lines 137-155): no call to the scheduler. *)
Definition edit (env : Env) (post_id : Z) (req : Request) : M Response :=
  let* post := query_get_or_404 post_id in
  match method req with
  | POST =>
      session_update post_id (edit_fields req) >>
      match truthy (files_image req) with
      | Some filename =>
          let image_filename := secure_filename env filename in
          file_save image_filename >>
          session_update post_id (set_image_filename (Some image_filename))
      | None => ret tt
      end >>
      session_commit >>
      ret (Redirect "index")
  | GET => ret (Render "edit.html" [(post_id, post)])
  end.

(** [delete] (lines 157-166): no call to the scheduler, and [os.remove]
    outside any [try]. *)
Definition delete (env : Env) (post_id : Z) : M Response :=
  let* post := query_get_or_404 post_id in
  match truthy (image_filename post) with
  | Some image_path =>
      let* there := os_path_exists image_path in
      if there then os_remove env image_path else ret tt
  | None => ret tt
  end >>
  session_delete post_id >>
  session_commit >>
  ret (Redirect "index").

(** [publish_post] (lines 39-47).  The [print] goes to standard output,
    which the world does not hold. *)
Definition publish_post (post_id : Z) : M unit :=
  let* found := query_get post_id in
  match found with
  | Some post =>
      if String.eqb (status post) "pending"
      then session_update post_id (set_status "posted") >>
           session_commit >>
           socketio_emit "status_update" post_id "posted"
      else ret tt
  | None => ret tt
  end.

(** [f"post_{post.id}_{int(run_time.timestamp())}"].  [timestamp] stands
    for [int(d.timestamp())], a float computation that is taken as given. *)
Definition job_id (timestamp : datetime -> Z) (post_id : Z) (run_time : datetime) : string :=
  "post_" +:+ pretty post_id +:+ "_" +:+ pretty (timestamp run_time).

(** The registration both [schedule] and [setup_scheduler_once] make:
    [add_job] with [replace_existing=True], and on [ConflictingIdError] a
    [remove_job] followed by an [add_job] without it. *)
Definition register (env : Env) (run_time : datetime) (post_id : Z) (jid : string) : M unit :=
  try_except_conflict
    (scheduler_add_job env run_time post_id jid true)
    (scheduler_remove_job jid >>
     scheduler_add_job env run_time post_id jid false).

(** [schedule] (lines 92-135): the new row takes the column default,
    "pending". *)
Definition schedule (timestamp : datetime -> Z) (env : Env) (req : Request) : M Response :=
  match method req with
  | POST =>
      let scheduled_time := form_time req in
      let* image_filename :=
        match truthy (files_image req) with
        | Some filename =>
            let image_filename := secure_filename env filename in
            file_save image_filename >>
            ret (Some image_filename)
        | None => ret None
        end in
      let new_post :=
        mk_Post (form_title req) (form_content req) (form_platform req)
                scheduled_time "pending" image_filename in
      let* new_id := session_add new_post in
      session_commit >>
      register env scheduled_time new_id (job_id timestamp new_id scheduled_time) >>
      ret (Redirect "index")
  | GET => ret (Render "schedule.html" [])
  end.

(** The body of the loop of [setup_scheduler_once] (lines 55-82). *)
Definition setup_body (timestamp : datetime -> Z) (env : Env) (row : Z * Post) : M unit :=
  let post_id := row.1 in
  let run_time := scheduled_time row.2 in
  let run_time := match tzinfo run_time with
                  | None => replace_tzinfo run_time IST
                  | Some _ => run_time
                  end in
  let jid := job_id timestamp post_id run_time in
  let* now := datetime_now IST in
  match datetime_le run_time now with
  | None => raise TypeError
  | Some true => publish_post post_id
  | Some false => register env run_time post_id jid
  end.

(** [setup_scheduler_once] (lines 50-84), a [before_request] hook.  The
    second component of the state is [hasattr(app, "_scheduler_setup_done")]. *)
Definition setup_scheduler_once (timestamp : datetime -> Z) (env : Env)
    (app : World * bool) : (World * bool) * (Exn + unit) :=
  if app.2 then (app, inr tt)
  else
    match (let* posts := query_filter_by_status "pending" in
           for_each posts (setup_body timestamp env)) app.1 with
    | (w', inr _) => ((w', true), inr tt)
    | (w', inl e) => ((w', false), inl e)
    end.

End TempCodeRunnerFile.

(** ** Concrete worlds *)

Definition quiet : Env :=
  mk_Env (fun name => name) (fun _ => false) (fun _ => false).

(** A job store that rejects every registration. *)
Definition rejecting : Env :=
  mk_Env (fun name => name) (fun _ => true) (fun _ => false).

Definition post_a : Post :=
  mk_Post "A" "first" "twitter" (mk_datetime 100 None) "posted" None.

Definition post_b : Post :=
  mk_Post "B" "second" "linkedin" (mk_datetime 50 None) "scheduled"
          (Some "b.png").

Definition post_c : Post :=
  mk_Post "C" "third" "twitter" (mk_datetime 90000000000 None) "scheduled" None.

Definition table_abc : gmap Z Post := {[ 1 := post_a; 2 := post_b; 3 := post_c ]}.

(** Three posts, no job, one uploaded file, the clock at instant 0. *)
Definition world_abc : World :=
  mk_World table_abc table_abc ∅ {[ "b.png" ]} 0 [].

Definition request_post : Request :=
  mk_Request POST "A2" "edited" "twitter" 500 None.

(** [world_abc] after post 3 has been registered. *)
Definition world_registered : World :=
  mk_World table_abc table_abc
    {[ "post_3" := mk_Job (mk_datetime 90000000000 (Some IST)) 3 ]}
    {[ "b.png" ]} 0 [].


Definition table_ab : gmap Z Post := {[ 1 := post_a; 2 := post_b ]}.

(** A restart with nothing ahead: post 2 is overdue, its job still stored. *)
Definition world_downtime : World :=
  mk_World table_ab table_ab
    {[ "post_2" := mk_Job (mk_datetime 50 (Some IST)) 2 ]}
    {[ "b.png" ]} 0 [].

Definition request_later : Request :=
  mk_Request POST "C" "third" "twitter" 95000000000 None.

(** A request that uploads an image. *)
Definition request_image : Request :=
  mk_Request POST "B2" "second" "linkedin" 95000000000 (Some "new.png").

(** Two posts that record the same image, and the folder with that file. *)
Definition post_s (t : string) : Post :=
  mk_Post t "shared" "twitter" (mk_datetime 95000000000 None) "scheduled"
          (Some "s.png").

Definition world_shared : World :=
  mk_World {[ 1 := post_s "S1"; 2 := post_s "S2" ]}
           {[ 1 := post_s "S1"; 2 := post_s "S2" ]} ∅ {[ "s.png" ]} 0 [].

(** A file system on which [os.remove] fails. *)
Definition readonly : Env :=
  mk_Env (fun name => name) (fun _ => false) (fun _ => true).

(** * Properties *)

Arguments _job_id : simpl never.

(** Unfolds the monad and the primitives that cannot raise. *)
Ltac unfold_M :=
  unfold bind, ret, raise, try_except, logging, socketio_emit, effect,
    query_get_or_404, query_get, session_update, session_delete,
    session_commit, os_path_exists, file_save, datetime_now.

(** ** Generalities *)

Lemma notifications_of_app t1 t2 :
  notifications_of (t1 ++ t2) = notifications_of t1 ++ notifications_of t2.
Proof. unfold notifications_of. apply flat_map_app. Qed.

Lemma eqb_decide (s t : string) : String.eqb s t = bool_decide (s = t).
Proof.
  destruct (String.eqb_spec s t) as [->|Hne].
  - symmetry. apply bool_decide_eq_true_2. reflexivity.
  - symmetry. apply bool_decide_eq_false_2. exact Hne.
Qed.

Lemma _job_id_inj i j : _job_id i = _job_id j -> i = j.
Proof.
  unfold _job_id. intros H. simpl in H.
  injection H as H. exact (inj pretty i j H).
Qed.

Lemma set_status_marked post : marked_posted post (set_status "posted" post).
Proof. repeat split. Qed.

Lemma same_state_record e w : same_state w (record e w).
Proof. repeat split. Qed.

Lemma bind_inr {A B} (m : M A) (k : A -> M B) w w' a :
  m w = (w', inr a) -> bind m k w = k a w'.
Proof. intros H. unfold bind. rewrite H. reflexivity. Qed.

Lemma bind_inl {A B} (m : M A) (k : A -> M B) w w' e :
  m w = (w', inl e) -> bind m k w = (w', inl e).
Proof. intros H. unfold bind. rewrite H. reflexivity. Qed.

Lemma query_get_or_404_found post_id w post :
  session w !! post_id = Some post ->
  query_get_or_404 post_id w = (w, inr post).
Proof.
  intros H. unfold query_get_or_404, bind, query_get. rewrite H. reflexivity.
Qed.

Lemma query_get_or_404_missing post_id w :
  session w !! post_id = None ->
  query_get_or_404 post_id w = (w, inl NotFound404).
Proof.
  intros H. unfold query_get_or_404, bind, query_get. rewrite H. reflexivity.
Qed.

Lemma alter_present {A} (f : A -> A) (i : Z) (m : gmap Z A) x :
  m !! i = Some x -> alter f i m = <[i := f x]> m.
Proof.
  intros H. apply map_eq. intros j. destruct (decide (i = j)) as [<-|Hne].
  - rewrite lookup_alter_eq, lookup_insert_eq, H. reflexivity.
  - rewrite lookup_alter_ne, lookup_insert_ne by exact Hne. reflexivity.
Qed.

(** ** The Publish Handler *)

(** The three branches of [publish_post], each with the world it leaves. *)
Lemma publish_post_absent post_id w :
  session w !! post_id = None ->
  publish_post post_id w =
    (record (Logged WARNING (PublishNotFound post_id)) w, inr tt).
Proof.
  intros H. unfold publish_post, bind, query_get. rewrite H. reflexivity.
Qed.

Lemma publish_post_skip post_id w post :
  session w !! post_id = Some post -> status post <> "scheduled" ->
  publish_post post_id w =
    (record (Logged INFO (PublishSkipped post_id (status post))) w, inr tt).
Proof.
  intros H Hs. unfold publish_post, bind, query_get. rewrite H.
  rewrite eqb_decide, bool_decide_eq_false_2 by exact Hs. reflexivity.
Qed.

Lemma publish_post_marks post_id w post :
  session w !! post_id = Some post -> status post = "scheduled" ->
  publish_post post_id w =
    ({| session := <[post_id := set_status "posted" post]> (session w);
        posts_db := <[post_id := set_status "posted" post]> (session w);
        jobs := jobs w; uploads := uploads w; clock := clock w;
        trace := trace w ++ [Commit; Emitted "status_update" post_id "posted";
                             Logged INFO (PublishMarked post_id)] |}, inr tt).
Proof.
  intros H Hs. unfold publish_post, bind, query_get. rewrite H.
  rewrite eqb_decide, bool_decide_eq_true_2 by exact Hs. simpl.
  unfold logging, socketio_emit, effect, record. simpl.
  rewrite <- !app_assoc. simpl.
  assert (alter (set_status "posted") post_id (session w)
          = <[post_id := set_status "posted" post]> (session w)) as ->; [|reflexivity].
  apply map_eq. intros i. destruct (decide (post_id = i)) as [<-|Hne].
  - rewrite lookup_alter_eq, lookup_insert_eq, H. reflexivity.
  - rewrite lookup_alter_ne, lookup_insert_ne by exact Hne. reflexivity.
Qed.

Lemma publish_post_returns post_id w : (publish_post post_id w).2 = inr tt.
Proof.
  destruct (session w !! post_id) as [post|] eqn:Hget.
  - destruct (decide (status post = "scheduled")) as [Hs|Hs].
    + rewrite (publish_post_marks _ _ _ Hget Hs). reflexivity.
    + rewrite (publish_post_skip _ _ _ Hget Hs). reflexivity.
  - rewrite (publish_post_absent _ _ Hget). reflexivity.
Qed.

Lemma notifications_record_log lvl msg w :
  notifications (record (Logged lvl msg) w) = notifications w.
Proof.
  unfold notifications. simpl. rewrite notifications_of_app. simpl.
  apply app_nil_r.
Qed.

(** C1: [publish_post] returns normally in every case.  When no post has the
    id, or the post's status is not "scheduled", the stores are as before
    and nothing is emitted; otherwise the committed table differs from the
    one before in the row of the post only, which now has status "posted"
    and its other columns as before, the session holds nothing uncommitted,
    and exactly one notification (status_update, post id, "posted") has been
    emitted, after the commit. *)
Theorem publish_post_behaviour (post_id : Z) (w : World) :
  session w = posts_db w ->
  (publish_post post_id w).2 = inr tt /\
  let w' := (publish_post post_id w).1 in
  match posts_db w !! post_id with
  | None => same_state w w' /\ notifications w' = notifications w
  | Some post =>
      if decide (status post = "scheduled")
      then exists post',
           marked_posted post post' /\
           posts_db w' = <[post_id := post']> (posts_db w) /\
           session w' = posts_db w' /\
           jobs w' = jobs w /\ uploads w' = uploads w /\
           notifications w' =
             notifications w ++ [("status_update", post_id, "posted")] /\
           trace w' =
             trace w ++ [Commit; Emitted "status_update" post_id "posted";
                         Logged INFO (PublishMarked post_id)]
      else same_state w w' /\ notifications w' = notifications w
  end.
Proof.
  intros Hclean. split; [apply publish_post_returns|].
  rewrite <- Hclean.
  destruct (session w !! post_id) as [post|] eqn:Hget.
  - destruct (decide (status post = "scheduled")) as [Hs|Hs].
    + rewrite (publish_post_marks _ _ _ Hget Hs). simpl.
      exists (set_status "posted" post). split; [apply set_status_marked|].
      repeat split.
      unfold notifications. simpl. rewrite notifications_of_app. reflexivity.
    + rewrite (publish_post_skip _ _ _ Hget Hs). simpl.
      split; [apply same_state_record | apply notifications_record_log].
  - rewrite (publish_post_absent _ _ Hget). simpl.
    split; [apply same_state_record | apply notifications_record_log].
Qed.

Lemma publish_post_behaviour_witness :
  let w' := (publish_post 2 world_abc).1 in
  (exists post', posts_db w' !! 2 = Some post' /\ status post' = "posted" /\
                 title post' = "B" /\ image_filename post' = Some "b.png") /\
  notifications w' = [("status_update", 2, "posted")].
Proof.
  pose proof (publish_post_behaviour 2 world_abc eq_refl) as [_ H].
  simpl in H. destruct H as (post' & Hm & Hdb & _ & _ & _ & Hn & _).
  split.
  - exists post'. split; [rewrite Hdb; apply lookup_insert_eq|].
    destruct Hm as (Hs & Ht & _ & _ & _ & Hi). auto.
  - exact Hn.
Defined.

(** C10: [publish_post] leaves every other post as it was, and of the post
    it is called on it changes at most the status: the post stays under its
    id with the same title, content, platform, scheduled time and image file
    name.  On both early returns the whole state is as before. *)
Theorem publish_post_frame (post_id : Z) (w : World) :
  session w = posts_db w ->
  let w' := (publish_post post_id w).1 in
  (forall i, i <> post_id -> posts_db w' !! i = posts_db w !! i) /\
  jobs w' = jobs w /\ uploads w' = uploads w /\
  match posts_db w !! post_id with
  | None => same_state w w'
  | Some post =>
      if decide (status post = "scheduled")
      then exists post',
             posts_db w' !! post_id = Some post' /\
             title post' = title post /\ content post' = content post /\
             platform post' = platform post /\
             scheduled_time post' = scheduled_time post /\
             image_filename post' = image_filename post
      else same_state w w'
  end.
Proof.
  intros Hclean. rewrite <- Hclean.
  destruct (session w !! post_id) as [post|] eqn:Hget.
  - destruct (decide (status post = "scheduled")) as [Hs|Hs].
    + rewrite (publish_post_marks _ _ _ Hget Hs). simpl.
      split; [|split; [reflexivity|split; [reflexivity|]]].
      * intros i Hi. apply lookup_insert_ne. congruence.
      * exists (set_status "posted" post). rewrite lookup_insert_eq.
        repeat split.
    + rewrite (publish_post_skip _ _ _ Hget Hs). simpl.
      repeat split. intros; rewrite Hclean; reflexivity.
  - rewrite (publish_post_absent _ _ Hget). simpl.
    repeat split. intros; rewrite Hclean; reflexivity.
Qed.

Lemma publish_post_frame_witness :
  posts_db (publish_post 2 world_abc).1 !! 1 = Some post_a /\
  same_state world_abc (publish_post 1 world_abc).1.
Proof.
  split.
  - pose proof (publish_post_frame 2 world_abc eq_refl) as (H & _).
    rewrite (H 1) by discriminate. reflexivity.
  - pose proof (publish_post_frame 1 world_abc eq_refl) as (_ & _ & _ & H).
    exact H.
Defined.

(** ** Delete *)

(** The image step of [delete] never raises and touches only the upload
    folder and the trace. *)
Lemma delete_image_spec env post w :
  exists img u,
    delete_image env post w =
      ({| session := session w; posts_db := posts_db w; jobs := jobs w;
          uploads := u; clock := clock w; trace := trace w ++ img |}, inr tt) /\
    match truthy (image_filename post) with
    | Some path =>
        if decide (path ∈ uploads w)
        then img = [CallOsRemove path] \/
             img = [CallOsRemove path; Logged ERROR (DeleteImageFailed path)]
        else img = []
    | None => img = []
    end.
Proof.
  unfold delete_image.
  destruct (truthy (image_filename post)) as [path|].
  - unfold_M. unfold os_remove.
    destruct (decide (path ∈ uploads w)) as [Hin|Hout].
    + rewrite bool_decide_eq_true_2 by exact Hin.
      destruct (os_remove_fails env path).
      * exists [CallOsRemove path; Logged ERROR (DeleteImageFailed path)], (uploads w).
        split; [|right; reflexivity].
        unfold record. simpl. rewrite <- app_assoc. reflexivity.
      * exists [CallOsRemove path], (uploads w ∖ {[path]}).
        split; [|left; reflexivity]. reflexivity.
    + rewrite bool_decide_eq_false_2 by exact Hout.
      exists [], (uploads w). split; [|reflexivity].
      rewrite app_nil_r. destruct w; reflexivity.
  - exists [], (uploads w). split; [|reflexivity].
    unfold ret. rewrite app_nil_r. destruct w; reflexivity.
Qed.

(** What [delete] does to an existing post, whatever the scheduler and the
    file system answer. *)
Lemma delete_spec env post_id w post :
  session w !! post_id = Some post ->
  exists note img u,
    delete env post_id w =
      ({| session := base.delete post_id (session w);
          posts_db := base.delete post_id (session w);
          jobs := base.delete (_job_id post_id) (jobs w);
          uploads := u; clock := clock w;
          trace := trace w ++ [CallRemoveJob (_job_id post_id); note] ++ img
                     ++ [SessionDelete post_id; Commit] |},
       inr (Redirect "index")) /\
    note = match jobs w !! _job_id post_id with
           | Some _ => Logged INFO (DeleteRemoved post_id)
           | None => Logged WARNING (DeleteJobNotFound post_id)
           end /\
    match truthy (image_filename post) with
    | Some path =>
        if decide (path ∈ uploads w)
        then img = [CallOsRemove path] \/
             img = [CallOsRemove path; Logged ERROR (DeleteImageFailed path)]
        else img = []
    | None => img = []
    end.
Proof.
  intros Hget. unfold delete. unfold bind at 1.
  unfold query_get_or_404, bind, query_get. rewrite Hget. unfold ret at 1.
  unfold try_except, scheduler_remove_job, logging, effect.
  destruct (jobs w !! _job_id post_id) as [j|] eqn:Hjob.
  - match goal with |- context [delete_image env post ?w1] =>
      destruct (delete_image_spec env post w1) as (img & u & -> & Himg) end.
    simpl in *. exists (Logged INFO (DeleteRemoved post_id)), img, u.
    split; [|split; [reflexivity | exact Himg]].
    unfold session_delete, session_commit, ret, record. simpl.
    rewrite <- !app_assoc. reflexivity.
  - match goal with |- context [delete_image env post ?w1] =>
      destruct (delete_image_spec env post w1) as (img & u & -> & Himg) end.
    simpl in *. exists (Logged WARNING (DeleteJobNotFound post_id)), img, u.
    split; [|split; [reflexivity | exact Himg]].
    unfold session_delete, session_commit, ret, record. simpl.
    rewrite <- !app_assoc.
    rewrite (delete_id (jobs w)) by exact Hjob. reflexivity.
Qed.

(** C6: for every post id whose job is absent from the scheduler,
    [scheduler.remove_job] raises and [delete] does not pass the exception
    on.  When the post exists, [delete] catches it, logs a warning and goes
    on to the end: it returns the redirect to [index], the post is gone from
    the committed table and the job store is as it was.  When no post has
    the id, [delete] answers 404 before it reaches the cancellation and
    changes nothing. *)
Theorem delete_tolerates_missing_job (env : Env) (post_id : Z) (w : World) :
  jobs w !! _job_id post_id = None ->
  (scheduler_remove_job (_job_id post_id) w).2
    = inl (JobLookupError (_job_id post_id)) /\
  match session w !! post_id with
  | Some post =>
      (delete env post_id w).2 = inr (Redirect "index") /\
      let w' := (delete env post_id w).1 in
      posts_db w' !! post_id = None /\
      session w' = posts_db w' /\
      jobs w' = jobs w /\
      In (CallRemoveJob (_job_id post_id)) (trace w') /\
      In (Logged WARNING (DeleteJobNotFound post_id)) (trace w') /\
      In (SessionDelete post_id) (trace w') /\
      In Commit (trace w')
  | None => delete env post_id w = (w, inl NotFound404)
  end.
Proof.
  intros Hjob. split.
  { unfold scheduler_remove_job. rewrite Hjob. reflexivity. }
  destruct (session w !! post_id) as [post|] eqn:Hget.
  - destruct (delete_spec env post_id w post Hget)
      as (note & img & u & -> & Hnote & _).
    rewrite Hjob in Hnote. subst note. simpl.
    split; [reflexivity|]. split; [apply lookup_delete_eq|].
    split; [reflexivity|]. split; [apply delete_id; exact Hjob|].
    rewrite !in_app_iff. simpl. rewrite !in_app_iff. simpl. tauto.
  - unfold delete.
    erewrite bind_inl by (apply query_get_or_404_missing; exact Hget).
    reflexivity.
Qed.

Lemma delete_tolerates_missing_job_witness :
  (delete quiet 2 world_abc).2 = inr (Redirect "index") /\
  posts_db (delete quiet 2 world_abc).1 !! 2 = None /\
  delete quiet 7 world_abc = (world_abc, inl NotFound404).
Proof.
  pose proof (delete_tolerates_missing_job quiet 2 world_abc eq_refl) as [_ H2].
  pose proof (delete_tolerates_missing_job quiet 7 world_abc eq_refl) as [_ H7].
  cbn in H2, H7. destruct H2 as (Hr & Hdb & _).
  split; [exact Hr|]. split; [exact Hdb | exact H7].
Defined.

(** C7, amended: in [app.py], on an existing post [delete] calls
    [scheduler.remove_job] for the post's job id first, then removes the
    image file when the post has one in the upload folder, then deletes the
    row and commits: the trace of the call is the cancellation and its log
    line, the image step, the row deletion, the commit, in this order and
    nothing else. *)
Theorem delete_order (env : Env) (post_id : Z) (w : World) (post : Post) :
  session w !! post_id = Some post ->
  exists lvl msg img,
    trace (delete env post_id w).1 =
      trace w ++ [CallRemoveJob (_job_id post_id); Logged lvl msg] ++ img
              ++ [SessionDelete post_id; Commit] /\
    match truthy (image_filename post) with
    | Some path =>
        if decide (path ∈ uploads w)
        then img = [CallOsRemove path] \/
             img = [CallOsRemove path; Logged ERROR (DeleteImageFailed path)]
        else img = []
    | None => img = []
    end.
Proof.
  intros Hget.
  destruct (delete_spec env post_id w post Hget) as (note & img & u & -> & Hnote & Himg).
  destruct (jobs w !! _job_id post_id); subst note; simpl; eauto.
Qed.

Lemma delete_order_witness :
  exists lvl msg img,
    trace (delete quiet 2 world_abc).1 =
      trace world_abc ++ [CallRemoveJob (_job_id 2); Logged lvl msg] ++ img
                      ++ [SessionDelete 2; Commit] /\
    (img = [CallOsRemove "b.png"] \/
     img = [CallOsRemove "b.png"; Logged ERROR (DeleteImageFailed "b.png")]).
Proof. exact (delete_order quiet 2 world_abc post_b eq_refl). Defined.

(** ** Registration *)

Lemma add_job_replace env run post_id k w :
  scheduler_add_job env run post_id k true w =
    if add_job_fails env k
    then (record (CallAddJob k run post_id) w, inl (JobStoreError k))
    else (with_jobs (<[k := mk_Job run post_id]> (jobs w))
            (record (CallAddJob k run post_id) w), inr tt).
Proof.
  unfold scheduler_add_job. destruct (add_job_fails env k); [reflexivity|].
  destruct (jobs w !! k); reflexivity.
Qed.

(** The guarded registration never raises: a rejection is logged. *)
Lemma guarded_registration env run post_id ok_msg err_msg w :
  try_except
    (scheduler_add_job env run post_id (_job_id post_id) true >>
     logging INFO ok_msg)
    (fun _ => logging ERROR err_msg) w =
  ({| session := session w; posts_db := posts_db w;
      jobs := registered env run post_id (jobs w);
      uploads := uploads w; clock := clock w;
      trace := trace w ++
        [CallAddJob (_job_id post_id) run post_id;
         if add_job_fails env (_job_id post_id)
         then Logged ERROR err_msg else Logged INFO ok_msg] |}, inr tt).
Proof.
  unfold try_except, bind. rewrite add_job_replace. unfold registered.
  destruct (add_job_fails env (_job_id post_id));
    unfold logging, effect, record; simpl; rewrite <- app_assoc; reflexivity.
Qed.

(** ** Create *)

Lemma schedule_image_spec env req w :
  exists f u evs,
    schedule_image env req w =
      ({| session := session w; posts_db := posts_db w; jobs := jobs w;
          uploads := u; clock := clock w; trace := trace w ++ evs |}, inr f).
Proof.
  unfold schedule_image.
  destruct (files_image req) as [filename|].
  - destruct (negb (String.eqb filename "")).
    + eexists _, _, [_]. unfold_M. reflexivity.
    + exists None, (uploads w), []. unfold ret. rewrite app_nil_r.
      destruct w; reflexivity.
  - exists None, (uploads w), []. unfold ret. rewrite app_nil_r.
    destruct w; reflexivity.
Qed.

Lemma schedule_spec env req w :
  method req = POST ->
  let new_id := next_id (session w) in
  exists f u evs,
    let new_post := mk_Post (form_title req) (form_content req)
                      (form_platform req) (form_time req) "scheduled" f in
    schedule env req w =
      ({| session := <[new_id := new_post]> (session w);
          posts_db := <[new_id := new_post]> (session w);
          jobs := registered env (form_time req) new_id (jobs w);
          uploads := u; clock := clock w;
          trace := trace w ++ evs ++
            [SessionAdd new_id; Commit;
             CallAddJob (_job_id new_id) (form_time req) new_id;
             if add_job_fails env (_job_id new_id)
             then Logged ERROR (ScheduleFailed new_id)
             else Logged INFO (ScheduleOk new_id)] |},
       inr (Redirect "index")).
Proof.
  intros Hm new_id. unfold schedule. rewrite Hm.
  destruct (schedule_image_spec env req w) as (f & u & evs & Himg).
  exists f, u, evs. unfold bind at 1. rewrite Himg.
  unfold bind at 1. unfold session_add at 1. simpl.
  unfold bind at 1. unfold session_commit at 1. simpl.
  unfold bind at 1. rewrite guarded_registration. simpl.
  unfold ret, form_time. subst new_id. simpl.
  rewrite <- !app_assoc. reflexivity.
Qed.

(** ** Edit *)

(** The image step of [edit]: it either raises the [OSError] of an
    [os.remove] that failed, or returns having changed at most the image
    file name of the row. *)
Lemma edit_image_spec env post_id post req w :
  exists w' r,
    edit_image env post_id post req w = (w', r) /\
    posts_db w' = posts_db w /\ jobs w' = jobs w /\ clock w' = clock w /\
    (exists evs, trace w' = trace w ++ evs) /\
    match r with
    | inl e => session w' = session w /\
               exists old, e = OSError old /\ os_remove_fails env old = true
    | inr _ => session w' = session w \/
               exists name,
                 session w' =
                   alter (set_image_filename (Some (secure_filename env name)))
                     post_id (session w)
    end.
Proof.
  unfold edit_image.
  destruct (files_image req) as [filename|]; [destruct (negb (String.eqb filename ""))|].
  - destruct (truthy (image_filename post)) as [old|].
    + unfold bind at 1. unfold bind at 1. unfold os_path_exists at 1.
      destruct (bool_decide (old ∈ uploads w)).
      * unfold os_remove. destruct (os_remove_fails env old) eqn:Hfail.
        -- eexists _, _. split; [reflexivity|]. simpl.
           repeat split; eauto.
        -- eexists _, _. split; [unfold_M; reflexivity|]. simpl.
           repeat split; [|right; eauto].
           eexists. rewrite <- app_assoc. reflexivity.
      * eexists _, _. split; [unfold_M; reflexivity|]. simpl.
        repeat split; [|right; eauto]. eexists. reflexivity.
    + eexists _, _. split; [unfold_M; reflexivity|]. simpl.
      repeat split; [|right; eauto]. eexists. reflexivity.
  - eexists _, _. split; [reflexivity|]. simpl.
    repeat split; [|left; reflexivity].
    exists []. symmetry. apply app_nil_r.
  - eexists _, _. split; [reflexivity|]. simpl.
    repeat split; [|left; reflexivity].
    exists []. symmetry. apply app_nil_r.
Qed.

(** A [POST] to [edit] for an existing post has two outcomes: the removal of
    the old image raises before anything is committed, or the edited row is
    committed with its status untouched and the job is registered behind the
    guard. *)
Lemma edit_post_spec env post_id req w post :
  session w !! post_id = Some post -> method req = POST ->
  exists w' res,
    edit env post_id req w = (w', res) /\
    ((exists old, res = inl (OSError old) /\ os_remove_fails env old = true /\
                  posts_db w' = posts_db w /\ jobs w' = jobs w /\
                  clock w' = clock w)
     \/
     (exists f, res = inr (Redirect "index") /\
        session w' = <[post_id := set_image_filename f (edit_fields req post)]> (session w) /\
        posts_db w' = session w' /\
        jobs w' = registered env (form_time req) post_id (jobs w) /\
        clock w' = clock w /\
        In (CallAddJob (_job_id post_id) (form_time req) post_id) (trace w') /\
        In (if add_job_fails env (_job_id post_id)
            then Logged ERROR (EditFailed post_id)
            else Logged INFO (EditOk post_id)) (trace w'))).
Proof.
  intros Hget Hm. unfold edit.
  erewrite bind_inr by (apply query_get_or_404_found; exact Hget).
  rewrite Hm. erewrite bind_inr by reflexivity.
  destruct (edit_image_spec env post_id post req
              (with_session (alter (edit_fields req) post_id (session w)) w))
    as (w1' & r & Himg & Hdb & Hjobs & Hclock & (evs & Htrace) & Hr).
  simpl in Hdb, Hjobs, Hclock, Htrace.
  destruct r as [e|[]].
  - erewrite bind_inl by exact Himg.
    eexists _, _. split; [reflexivity|]. left.
    destruct Hr as (_ & old & -> & Hfail). exists old. auto.
  - erewrite bind_inr by exact Himg.
    erewrite bind_inr by reflexivity.
    erewrite bind_inr by apply guarded_registration.
    eexists _, _. split; [reflexivity|]. right. simpl.
    simpl in Hr. rewrite (alter_present _ _ _ _ Hget) in Hr.
    assert (exists f, session w1' = <[post_id := set_image_filename f (edit_fields req post)]> (session w))
      as (f & Hs).
    { destruct Hr as [Hr | (name & Hr)].
      - exists (image_filename post). rewrite Hr. reflexivity.
      - exists (Some (secure_filename env name)). rewrite Hr.
        erewrite alter_present by apply lookup_insert_eq.
        apply insert_insert_eq. }
    exists f. rewrite Hjobs, Hclock. unfold form_time.
    repeat split; try assumption.
    + rewrite !in_app_iff. simpl. tauto.
    + rewrite !in_app_iff. simpl. tauto.
Qed.

(** C8: when the job store rejects the registration that follows a create,
    [scheduler.add_job] raises, [schedule] logs the error and still returns
    the redirect; the new post stays committed with status "scheduled" and no
    job is stored.  The same holds for an edit that reached its commit: the
    edited post stays committed with the status it had, the error is logged
    and the redirect returned. *)
Theorem registration_failure_contained (env : Env) (req : Request) (w : World) :
  method req = POST ->
  (let new_id := next_id (session w) in
   add_job_fails env (_job_id new_id) = true ->
   (scheduler_add_job env (form_time req) new_id (_job_id new_id) true w).2
     = inl (JobStoreError (_job_id new_id)) /\
   (schedule env req w).2 = inr (Redirect "index") /\
   let w' := (schedule env req w).1 in
   (exists post, posts_db w' !! new_id = Some post /\ status post = "scheduled" /\
                 title post = form_title req /\ content post = form_content req /\
                 platform post = form_platform req /\
                 scheduled_time post = form_time req) /\
   jobs w' = jobs w /\
   In (Logged ERROR (ScheduleFailed new_id)) (trace w')) /\
  (forall post_id post,
     session w !! post_id = Some post ->
     add_job_fails env (_job_id post_id) = true ->
     (forall e, (edit env post_id req w).2 = inl e -> exists old, e = OSError old) /\
     ((edit env post_id req w).2 = inr (Redirect "index") ->
      let w' := (edit env post_id req w).1 in
      (exists post', posts_db w' !! post_id = Some post' /\
                     status post' = status post /\
                     title post' = form_title req /\
                     scheduled_time post' = form_time req) /\
      jobs w' = jobs w /\
      In (Logged ERROR (EditFailed post_id)) (trace w'))).
Proof.
  intros Hm. split.
  - intros new_id Hfail. split.
    { rewrite add_job_replace, Hfail. reflexivity. }
    destruct (schedule_spec env req w Hm) as (f & u & evs & ->). simpl.
    fold new_id. split; [reflexivity|]. split; [|split].
    + eexists. rewrite lookup_insert_eq. repeat split.
    + unfold registered. rewrite Hfail. reflexivity.
    + rewrite Hfail. rewrite !in_app_iff. simpl. tauto.
  - intros post_id post Hget Hfail.
    destruct (edit_post_spec env post_id req w post Hget Hm)
      as (w' & res & -> & [(old & -> & _) | (f & -> & Hs & Hdb & Hjobs & _ & _ & Hlog)]);
      simpl.
    + split; [intros e [= <-]; eauto | discriminate].
    + split; [discriminate|]. intros _. split; [|split].
      * eexists. rewrite Hdb, Hs, lookup_insert_eq. repeat split.
      * rewrite Hjobs. unfold registered. rewrite Hfail. reflexivity.
      * rewrite Hfail in Hlog. exact Hlog.
Qed.

Lemma registration_failure_contained_witness :
  (schedule rejecting request_post world_abc).2 = inr (Redirect "index") /\
  (exists post, posts_db (schedule rejecting request_post world_abc).1 !! 4 = Some post /\
                status post = "scheduled") /\
  jobs (schedule rejecting request_post world_abc).1 = ∅.
Proof.
  destruct (registration_failure_contained rejecting request_post world_abc eq_refl)
    as [Hcreate _].
  destruct (Hcreate eq_refl) as (_ & Hr & (post & Hp & Hs & _) & Hj & _).
  split; [exact Hr|]. split; [|exact Hj].
  exists post. split; [exact Hp | exact Hs].
Defined.

(** ** Listing *)

Lemma Sorted_adjacent {A} (R : A -> A -> Prop) (l : list A) :
  Sorted R l -> adjacent_in_order R l.
Proof.
  induction 1 as [|a l Hs IH Hhd]; intros n x y Hx Hy.
  - rewrite lookup_nil in Hx. discriminate.
  - destruct n as [|n]; simpl in Hx, Hy.
    + injection Hx as <-. destruct Hhd as [|b l' Hab]; [discriminate|].
      simpl in Hy. injection Hy as <-. exact Hab.
    + exact (IH n x y Hx Hy).
Qed.

Lemma insert_desc_perm r l : insert_desc r l ≡ₚ r :: l.
Proof.
  induction l as [|x l IH]; simpl; [reflexivity|].
  destruct (wall (scheduled_time x.2) <? wall (scheduled_time r.2)); [reflexivity|].
  rewrite IH. apply perm_swap.
Qed.

Lemma insert_desc_hd r x l :
  later_first x r -> HdRel later_first x l -> HdRel later_first x (insert_desc r l).
Proof.
  intros Hxr Hhd. destruct l as [|y l]; simpl; [constructor; exact Hxr|].
  destruct (wall (scheduled_time y.2) <? wall (scheduled_time r.2));
    constructor; [exact Hxr|]. inversion Hhd; assumption.
Qed.

Lemma insert_desc_sorted r l :
  Sorted later_first l -> Sorted later_first (insert_desc r l).
Proof.
  induction 1 as [|x l Hs IH Hhd]; simpl.
  - repeat constructor.
  - destruct (wall (scheduled_time x.2) <? wall (scheduled_time r.2)) eqn:Hlt.
    + apply Z.ltb_lt in Hlt. constructor; [constructor; assumption|].
      constructor. unfold later_first, time_key. lia.
    + apply Z.ltb_ge in Hlt. constructor; [exact IH|].
      apply insert_desc_hd; [|exact Hhd]. exact Hlt.
Qed.

Lemma order_by_desc_spec l :
  order_by_scheduled_time_desc l ≡ₚ l /\
  Sorted later_first (order_by_scheduled_time_desc l).
Proof.
  induction l as [|r l [IHp IHs]]; simpl.
  - split; [reflexivity | constructor].
  - split.
    + rewrite insert_desc_perm, IHp. reflexivity.
    + apply insert_desc_sorted. exact IHs.
Qed.

Lemma insert_asc_perm r l : TempCodeRunnerFile.insert_asc r l ≡ₚ r :: l.
Proof.
  induction l as [|x l IH]; simpl; [reflexivity|].
  destruct (wall (scheduled_time r.2) <? wall (scheduled_time x.2)); [reflexivity|].
  rewrite IH. apply perm_swap.
Qed.

Lemma insert_asc_hd r x l :
  earlier_first x r -> HdRel earlier_first x l ->
  HdRel earlier_first x (TempCodeRunnerFile.insert_asc r l).
Proof.
  intros Hxr Hhd. destruct l as [|y l]; simpl; [constructor; exact Hxr|].
  destruct (wall (scheduled_time r.2) <? wall (scheduled_time y.2));
    constructor; [exact Hxr|]. inversion Hhd; assumption.
Qed.

Lemma insert_asc_sorted r l :
  Sorted earlier_first l -> Sorted earlier_first (TempCodeRunnerFile.insert_asc r l).
Proof.
  induction 1 as [|x l Hs IH Hhd]; simpl.
  - repeat constructor.
  - destruct (wall (scheduled_time r.2) <? wall (scheduled_time x.2)) eqn:Hlt.
    + apply Z.ltb_lt in Hlt. constructor; [constructor; assumption|].
      constructor. unfold earlier_first, time_key. lia.
    + apply Z.ltb_ge in Hlt. constructor; [exact IH|].
      apply insert_asc_hd; [|exact Hhd]. exact Hlt.
Qed.

Lemma order_by_asc_spec l :
  TempCodeRunnerFile.order_by_scheduled_time l ≡ₚ l /\
  Sorted earlier_first (TempCodeRunnerFile.order_by_scheduled_time l).
Proof.
  induction l as [|r l [IHp IHs]]; simpl.
  - split; [reflexivity | constructor].
  - split.
    + rewrite insert_asc_perm, IHp. reflexivity.
    + apply insert_asc_sorted. exact IHs.
Qed.

(** C9: [index] renders "index.html" with a list that holds every stored
    post exactly once, each under its id, and that is ordered by scheduled
    time: of two adjacent posts the first is scheduled no earlier than the
    second (newest first, [ORDER BY scheduled_time DESC]).  The draft's
    [index] lists the same posts in the opposite direction, oldest first.
    Neither changes the state. *)
Theorem index_ordered_by_scheduled_time (w : World) :
  session w = posts_db w ->
  (exists posts,
     index w = (w, inr (Render "index.html" posts)) /\
     (forall post_id post,
        (post_id, post) ∈ posts <-> posts_db w !! post_id = Some post) /\
     posts ≡ₚ map_to_list (posts_db w) /\
     adjacent_in_order later_first posts) /\
  (exists posts,
     TempCodeRunnerFile.index w = (w, inr (Render "index.html" posts)) /\
     (forall post_id post,
        (post_id, post) ∈ posts <-> posts_db w !! post_id = Some post) /\
     posts ≡ₚ map_to_list (posts_db w) /\
     adjacent_in_order earlier_first posts).
Proof.
  intros Hclean. split.
  - destruct (order_by_desc_spec (map_to_list (session w))) as [Hp Hs].
    eexists. split; [reflexivity|]. rewrite <- Hclean.
    split; [|split; [exact Hp | apply Sorted_adjacent; exact Hs]].
    intros post_id post. rewrite Hp. apply elem_of_map_to_list.
  - destruct (order_by_asc_spec (map_to_list (session w))) as [Hp Hs].
    eexists. split; [reflexivity|]. rewrite <- Hclean.
    split; [|split; [exact Hp | apply Sorted_adjacent; exact Hs]].
    intros post_id post. rewrite Hp. apply elem_of_map_to_list.
Qed.

Lemma index_ordered_by_scheduled_time_witness :
  exists posts,
    index world_abc = (world_abc, inr (Render "index.html" posts)) /\
    posts ≡ₚ map_to_list table_abc /\
    adjacent_in_order later_first posts.
Proof.
  destruct (index_ordered_by_scheduled_time world_abc eq_refl)
    as [(posts & Hi & _ & Hp & Ha) _].
  exists posts. split; [exact Hi|]. split; [exact Hp | exact Ha].
Defined.

(** ** Startup reconciliation *)

(** *** Rows in the order of their ids *)

Lemma insert_by_id_perm r l : insert_by_id r l ≡ₚ r :: l.
Proof.
  induction l as [|x l IH]; simpl; [reflexivity|].
  destruct (r.1 <? x.1); [reflexivity|].
  rewrite IH. apply perm_swap.
Qed.

Lemma insert_by_id_hd r x l :
  x.1 <= r.1 -> HdRel (fun a b : Z * Post => a.1 <= b.1) x l ->
  HdRel (fun a b : Z * Post => a.1 <= b.1) x (insert_by_id r l).
Proof.
  intros Hxr Hhd. destruct l as [|y l]; simpl; [constructor; exact Hxr|].
  destruct (r.1 <? y.1); constructor; [exact Hxr|]. inversion Hhd; assumption.
Qed.

Lemma insert_by_id_sorted r l :
  Sorted (fun a b : Z * Post => a.1 <= b.1) l ->
  Sorted (fun a b : Z * Post => a.1 <= b.1) (insert_by_id r l).
Proof.
  induction 1 as [|x l Hs IH Hhd]; simpl.
  - repeat constructor.
  - destruct (r.1 <? x.1) eqn:Hlt.
    + apply Z.ltb_lt in Hlt. constructor; [constructor; assumption|].
      constructor. lia.
    + apply Z.ltb_ge in Hlt. constructor; [exact IH|].
      apply insert_by_id_hd; [|exact Hhd]. exact Hlt.
Qed.

Lemma rows_by_id_perm t : rows_by_id t ≡ₚ map_to_list t.
Proof.
  unfold rows_by_id. induction (map_to_list t) as [|r l IH]; simpl; [reflexivity|].
  rewrite insert_by_id_perm, IH. reflexivity.
Qed.

(** The scan yields every row of the table, once. *)
Lemma rows_by_id_lookup t i p : (i, p) ∈ rows_by_id t <-> t !! i = Some p.
Proof. rewrite rows_by_id_perm. apply elem_of_map_to_list. Qed.

Lemma rows_by_id_NoDup t : NoDup (rows_by_id t).*1.
Proof. rewrite rows_by_id_perm. apply NoDup_fst_map_to_list. Qed.

Lemma rows_by_id_ascending t :
  adjacent_in_order (fun a b : Z * Post => a.1 < b.1) (rows_by_id t).
Proof.
  intros n a b Ha Hb.
  assert (Hle : a.1 <= b.1).
  { assert (Hs : Sorted (fun a b : Z * Post => a.1 <= b.1) (rows_by_id t)).
    { unfold rows_by_id.
      induction (map_to_list t) as [|r l IH]; simpl; [constructor|].
      apply insert_by_id_sorted. exact IH. }
    exact (Sorted_adjacent _ _ Hs n a b Ha Hb). }
  assert (Hne : a.1 <> b.1).
  { intros E. pose proof (rows_by_id_NoDup t) as Hnd.
    assert (H1 : (rows_by_id t).*1 !! n = Some a.1)
      by (rewrite list_lookup_fmap, Ha; reflexivity).
    assert (H2 : (rows_by_id t).*1 !! S n = Some a.1)
      by (rewrite list_lookup_fmap, Hb, E; reflexivity).
    pose proof (NoDup_lookup _ _ _ _ Hnd H1 H2). lia. }
  lia.
Qed.

Lemma scheduled_rows w i p :
  (i, p) ∈ filter (fun r : Z * Post => String.eqb (status r.2) "scheduled")
            (rows_by_id (session w))
  <-> session w !! i = Some p /\ status p = "scheduled".
Proof.
  rewrite list_elem_of_filter, rows_by_id_lookup. cbn [snd].
  rewrite eqb_decide, bool_decide_spec. tauto.
Qed.

Lemma scheduled_rows_NoDup w :
  NoDup (filter (fun r : Z * Post => String.eqb (status r.2) "scheduled")
           (rows_by_id (session w))).*1.
Proof.
  eapply sublist_NoDup; [apply (rows_by_id_NoDup (session w))|].
  apply fmap_sublist, sublist_filter.
Qed.

(** *** The timer thread *)

Lemma timer_idle_blocked w : timer_thread_blocked w = false <-> timer_idle w.
Proof.
  unfold timer_thread_blocked, timer_idle. split.
  - intros H k j Hk. destruct (job_due j (clock w)) eqn:Hd; [|reflexivity].
    rewrite <- H. symmetry. apply existsb_exists. exists (k, j).
    split; [|exact Hd]. apply list_elem_of_In, elem_of_map_to_list. exact Hk.
  - intros H.
    destruct (existsb (fun kj : string * Job => job_due kj.2 (clock w))
                (map_to_list (jobs w))) eqn:E; [|reflexivity].
    apply existsb_exists in E as ([k j] & Hin & Hd).
    apply list_elem_of_In, elem_of_map_to_list in Hin. cbn [snd] in Hd.
    rewrite (H k j Hin) in Hd. discriminate.
Qed.

(** A job registered by the loop is due exactly when its post is overdue. *)
Lemma job_due_normalized p i now :
  job_due (mk_Job (normalized (scheduled_time p)) i) now = overdue p now.
Proof.
  unfold job_due, normalized, overdue, replace_tzinfo. cbn [run_date].
  destruct (tzinfo (scheduled_time p)) as [off|] eqn:Htz; cbn [tzinfo wall].
  - rewrite Htz. reflexivity.
  - reflexivity.
Qed.

Lemma publish_post_jobs post_id w : jobs (publish_post post_id w).1 = jobs w.
Proof.
  destruct (session w !! post_id) as [post|] eqn:Hget.
  - destruct (decide (status post = "scheduled")) as [Hs|Hs].
    + rewrite (publish_post_marks _ _ _ Hget Hs). reflexivity.
    + rewrite (publish_post_skip _ _ _ Hget Hs). reflexivity.
  - rewrite (publish_post_absent _ _ Hget). reflexivity.
Qed.

(** *** The loop *)

(** The loop body on one row: the comparison never raises, an overdue post
    goes to [publish_post] at once, any other to the guarded registration,
    which does not return while the timer thread is blocked. *)
Lemma startup_body_eq env i p w :
  startup_body env (i, p) w =
    if overdue p (clock w)
    then publish_post i (record (Logged INFO (StartupPast i)) w)
    else if timer_thread_blocked w
    then (record (CallAddJob (_job_id i) (normalized (scheduled_time p)) i) w,
          inl Deadlock)
    else ({| session := session w; posts_db := posts_db w;
             jobs := registered env (normalized (scheduled_time p)) i (jobs w);
             uploads := uploads w; clock := clock w;
             trace := trace w ++
               [CallAddJob (_job_id i) (normalized (scheduled_time p)) i;
                if add_job_fails env (_job_id i)
                then Logged ERROR (StartupAddFailed i)
                else Logged INFO (StartupScheduled i (normalized (scheduled_time p)))] |},
          inr tt).
Proof.
  unfold startup_body. cbn [fst snd].
  erewrite bind_inr by reflexivity.
  fold (normalized (scheduled_time p)).
  assert (Hle : datetime_le (normalized (scheduled_time p))
                  {| wall := clock w + IST; tzinfo := Some IST |}
                = Some (overdue p (clock w))).
  { unfold datetime_le, normalized, overdue, replace_tzinfo.
    destruct (tzinfo (scheduled_time p)) as [off|] eqn:Htz; cbn [tzinfo wall].
    - rewrite Htz. f_equal. f_equal. lia.
    - f_equal. f_equal. lia. }
  rewrite Hle. destruct (overdue p (clock w)).
  - erewrite bind_inr by reflexivity. reflexivity.
  - destruct (timer_thread_blocked w) eqn:Hb.
    + unfold try_except, bind, scheduler_add_job_at_import. rewrite Hb. reflexivity.
    + rewrite <- guarded_registration.
      unfold try_except, bind, scheduler_add_job_at_import. rewrite Hb. reflexivity.
Qed.

Lemma registered_lookup_ne env run i (js : gmap string Job) k :
  k <> _job_id i -> registered env run i js !! k = js !! k.
Proof.
  intros Hne. unfold registered.
  destruct (add_job_fails env (_job_id i)); [reflexivity|].
  apply lookup_insert_ne. congruence.
Qed.

Lemma registered_lookup_eq env run i (js : gmap string Job) :
  registered env run i js !! _job_id i =
    if add_job_fails env (_job_id i) then js !! _job_id i
    else Some (mk_Job run i).
Proof.
  unfold registered. destruct (add_job_fails env (_job_id i)); [reflexivity|].
  apply lookup_insert_eq.
Qed.

(** One turn of the loop on a row the session still holds as queried, while
    the timer thread is idle. *)
Lemma startup_body_spec env i p w :
  session w !! i = Some p -> status p = "scheduled" ->
  session w = posts_db w -> timer_idle w ->
  exists w1,
    startup_body env (i, p) w = (w1, inr tt) /\
    clock w1 = clock w /\ uploads w1 = uploads w /\ session w1 = posts_db w1 /\
    session w1 = (if overdue p (clock w)
                  then <[i := set_status "posted" p]> (session w)
                  else session w) /\
    jobs w1 = (if overdue p (clock w) then jobs w
               else registered env (normalized (scheduled_time p)) i (jobs w)) /\
    notifications w1 = notifications w ++
      (if overdue p (clock w) then [("status_update", i, "posted")] else []) /\
    (forall e, In e (trace w) -> In e (trace w1)) /\
    (overdue p (clock w) = false -> add_job_fails env (_job_id i) = true ->
     In (Logged ERROR (StartupAddFailed i)) (trace w1)) /\
    timer_idle w1.
Proof.
  intros Hget Hs Hclean Hidle.
  rewrite startup_body_eq. destruct (overdue p (clock w)) eqn:Hov.
  - erewrite publish_post_marks by (simpl; eassumption).
    eexists. split; [reflexivity|]. simpl.
    repeat split; try done.
    + unfold notifications. simpl.
      rewrite <- app_assoc, notifications_of_app. reflexivity.
    + intros e He. rewrite !in_app_iff. tauto.
  - rewrite (proj2 (timer_idle_blocked w) Hidle).
    eexists. split; [reflexivity|]. simpl.
    repeat split; try done.
    + unfold notifications. simpl. rewrite notifications_of_app. simpl.
      destruct (add_job_fails env (_job_id i)); reflexivity.
    + intros e He. rewrite in_app_iff. tauto.
    + intros _ ->. rewrite in_app_iff. simpl. tauto.
    + intros k j Hk. cbn [jobs clock] in Hk |- *.
      destruct (decide (k = _job_id i)) as [->|Hne].
      * rewrite registered_lookup_eq in Hk.
        destruct (add_job_fails env (_job_id i)); [exact (Hidle _ _ Hk)|].
        injection Hk as <-. rewrite job_due_normalized. exact Hov.
      * rewrite registered_lookup_ne in Hk by exact Hne. exact (Hidle _ _ Hk).
Qed.

(** The loop over rows with distinct ids that the session holds as queried,
    while the timer thread is idle.  [now] is the clock, which the loop does
    not move. *)
Lemma reconcile_loop env l : forall w,
  NoDup (l.*1) ->
  (forall i p, (i, p) ∈ l -> session w !! i = Some p /\ status p = "scheduled") ->
  session w = posts_db w -> timer_idle w ->
  exists w', for_each l (startup_body env) w = (w', inr tt) /\
    clock w' = clock w /\ uploads w' = uploads w /\ session w' = posts_db w' /\
    (forall i p, (i, p) ∈ l ->
       session w' !! i =
         Some (if overdue p (clock w) then set_status "posted" p else p)) /\
    (forall i, i ∉ l.*1 -> session w' !! i = session w !! i) /\
    (forall i p, (i, p) ∈ l ->
       jobs w' !! _job_id i =
         if overdue p (clock w) then jobs w !! _job_id i
         else registered env (normalized (scheduled_time p)) i (jobs w) !! _job_id i) /\
    (forall k, (forall i p, (i, p) ∈ l -> k <> _job_id i) ->
       jobs w' !! k = jobs w !! k) /\
    notifications w' =
      notifications w ++
      map (fun r => ("status_update", r.1, "posted"))
          (filter (fun r => overdue r.2 (clock w)) l) /\
    (forall e, In e (trace w) -> In e (trace w')) /\
    (forall i p, (i, p) ∈ l -> overdue p (clock w) = false ->
       add_job_fails env (_job_id i) = true ->
       In (Logged ERROR (StartupAddFailed i)) (trace w')) /\
    timer_idle w'.
Proof.
  induction l as [|[i p] l IH]; intros w Hnd Hrows Hclean Hidle.
  - exists w. simpl. split; [reflexivity|].
    repeat split; try done.
    + intros i p Hin. inversion Hin.
    + intros i p Hin. inversion Hin.
    + rewrite app_nil_r. reflexivity.
    + intros i p Hin. inversion Hin.
  - simpl in Hnd. apply NoDup_cons in Hnd as [Hi Hnd].
    destruct (Hrows i p) as [Hget Hs]; [left|].
    destruct (startup_body_spec env i p w Hget Hs Hclean Hidle)
      as (w1 & Hb & Hc1 & Hu1 & Hcl1 & Hs1 & Hj1 & Hn1 & Ht1 & He1 & Hidle1).
    assert (Hfresh : forall i' p', (i', p') ∈ l -> i <> i').
    { intros i' p' Hin <-. apply Hi. apply list_elem_of_fmap.
      exists (i, p'). split; [reflexivity | exact Hin]. }
    assert (Hrows1 : forall i' p', (i', p') ∈ l ->
              session w1 !! i' = Some p' /\ status p' = "scheduled").
    { intros i' p' Hin. destruct (Hrows i' p') as [Hg' Hs']; [right; exact Hin|].
      split; [|exact Hs']. rewrite Hs1. pose proof (Hfresh i' p' Hin).
      destruct (overdue p (clock w)); [rewrite lookup_insert_ne by assumption|];
        exact Hg'. }
    destruct (IH w1 Hnd Hrows1 Hcl1 Hidle1)
      as (w' & Hf & Hc & Hu & Hcl & Hin' & Hout' & Hjin & Hjout & Hn & Ht & He & Hidle').
    rewrite Hc1 in Hin', Hjin, Hn, He.
    exists w'. split.
    { simpl. erewrite bind_inr by exact Hb. exact Hf. }
    split; [congruence|]. split; [congruence|]. split; [exact Hcl|].
    split; [|split; [|split; [|split; [|split; [|split; [|split]]]]]].
    + intros i0 p0 Hin0. apply elem_of_cons in Hin0 as [[= -> ->]|Hin0].
      * rewrite (Hout' i Hi), Hs1.
        destruct (overdue p (clock w)); [apply lookup_insert_eq | exact Hget].
      * apply Hin'. exact Hin0.
    + intros i0 Hi0. simpl in Hi0. apply not_elem_of_cons in Hi0 as [Hne Hi0].
      rewrite (Hout' i0 Hi0), Hs1.
      destruct (overdue p (clock w)); [apply lookup_insert_ne; congruence | reflexivity].
    + intros i0 p0 Hin0. apply elem_of_cons in Hin0 as [[= -> ->]|Hin0].
      * rewrite Hjout, Hj1.
        -- destruct (overdue p (clock w)); reflexivity.
        -- intros i' p' Hin E. apply _job_id_inj in E. exact (Hfresh i' p' Hin E).
      * rewrite (Hjin i0 p0 Hin0), Hj1.
        assert (Hne : _job_id i0 <> _job_id i).
        { intros E. apply _job_id_inj in E. symmetry in E.
          exact (Hfresh i0 p0 Hin0 E). }
        destruct (overdue p (clock w)); [reflexivity|].
        rewrite !registered_lookup_eq, (registered_lookup_ne _ _ _ _ _ Hne).
        reflexivity.
    + intros k Hk. rewrite Hjout, Hj1.
      * destruct (overdue p (clock w)); [reflexivity|].
        apply registered_lookup_ne. apply (Hk i p). left.
      * intros i' p' Hin. apply (Hk i' p'). right. exact Hin.
    + rewrite Hn, Hn1, filter_cons. cbn [snd].
      destruct (overdue p (clock w)); simpl.
      * rewrite <- app_assoc. reflexivity.
      * rewrite app_nil_r. reflexivity.
    + intros e Hin0. apply Ht. apply Ht1. exact Hin0.
    + intros i0 p0 Hin0 Hov Hfail. apply elem_of_cons in Hin0 as [[= -> ->]|Hin0].
      * apply Ht. apply He1; assumption.
      * apply (He i0 p0); assumption.
    + exact Hidle'.
Qed.

(** The loop while the timer thread is blocked: overdue rows are published
    one after the other, the job store is not touched, and the first row
    that is not overdue ends the loop in a registration that never
    returns. *)
Lemma reconcile_loop_blocked env l : forall w,
  NoDup (l.*1) ->
  (forall i p, (i, p) ∈ l -> session w !! i = Some p /\ status p = "scheduled") ->
  session w = posts_db w -> timer_thread_blocked w = true ->
  exists w' r, for_each l (startup_body env) w = (w', r) /\
    clock w' = clock w /\ uploads w' = uploads w /\ session w' = posts_db w' /\
    jobs w' = jobs w /\
    (forall i p, (i, p) ∈ l ->
       session w' !! i = Some p \/
       (overdue p (clock w) = true /\
        session w' !! i = Some (set_status "posted" p))) /\
    (forall i, i ∉ l.*1 -> session w' !! i = session w !! i) /\
    (forall e, In e (trace w) -> In e (trace w')) /\
    ((exists i p, (i, p) ∈ l /\ overdue p (clock w) = false) -> r = inl Deadlock) /\
    ((forall i p, (i, p) ∈ l -> overdue p (clock w) = true) ->
     r = inr tt /\
     (forall i p, (i, p) ∈ l -> session w' !! i = Some (set_status "posted" p)) /\
     notifications w' =
       notifications w ++ map (fun r => ("status_update", r.1, "posted")) l).
Proof.
  induction l as [|[i p] l IH]; intros w Hnd Hrows Hclean Hblocked.
  - exists w, (inr tt). simpl. split; [reflexivity|].
    repeat split; try done.
    + intros i p Hin. inversion Hin.
    + intros (i & p & Hin & _). inversion Hin.
    + intros i p Hin. inversion Hin.
    + rewrite app_nil_r. reflexivity.
  - simpl in Hnd. apply NoDup_cons in Hnd as [Hi Hnd].
    destruct (Hrows i p) as [Hget Hs]; [left|].
    assert (Hfresh : forall i' p', (i', p') ∈ l -> i <> i').
    { intros i' p' Hin <-. apply Hi. apply list_elem_of_fmap.
      exists (i, p'). split; [reflexivity | exact Hin]. }
    simpl. unfold bind. rewrite startup_body_eq, Hblocked.
    destruct (overdue p (clock w)) eqn:Hov.
    + erewrite publish_post_marks by (simpl; eassumption).
      match goal with
      | |- context [for_each l _ ?v] => set (w1 := v)
      end.
      destruct (IH w1) as (w' & r & Hf & Hc & Hu & Hcl & Hj & Hin' & Hout' & Ht & Hd & Hall).
      { exact Hnd. }
      { intros i' p' Hin. destruct (Hrows i' p') as [Hg' Hs']; [right; exact Hin|].
        split; [|exact Hs']. unfold w1. cbn [session].
        rewrite lookup_insert_ne by exact (Hfresh i' p' Hin). exact Hg'. }
      { reflexivity. }
      { exact Hblocked. }
      subst w1. unfold record in *.
      cbn [clock uploads jobs session trace] in Hc, Hu, Hj, Hin', Hout', Ht, Hd, Hall.
      exists w', r. split; [exact Hf|].
      split; [exact Hc|]. split; [exact Hu|]. split; [exact Hcl|]. split; [exact Hj|].
      split; [|split; [|split; [|split]]].
      * intros i0 p0 Hin0. apply elem_of_cons in Hin0 as [[= -> ->]|Hin0].
        -- right. split; [exact Hov|]. rewrite (Hout' i Hi). apply lookup_insert_eq.
        -- apply Hin'. exact Hin0.
      * intros i0 Hi0. apply not_elem_of_cons in Hi0 as [Hne Hi0].
        rewrite (Hout' i0 Hi0). apply lookup_insert_ne. congruence.
      * intros e He. apply Ht. rewrite !in_app_iff. tauto.
      * intros (i0 & p0 & Hin0 & Hov0). apply Hd.
        apply elem_of_cons in Hin0 as [[= -> ->]|Hin0]; [congruence|].
        exists i0, p0. auto.
      * intros Hall0.
        destruct Hall as (-> & Hposted & Hn).
        { intros i0 p0 Hin0. apply (Hall0 i0 p0). right. exact Hin0. }
        split; [reflexivity|]. split.
        -- intros i0 p0 Hin0. apply elem_of_cons in Hin0 as [[= -> ->]|Hin0].
           ++ rewrite (Hout' i Hi). apply lookup_insert_eq.
           ++ apply Hposted. exact Hin0.
        -- rewrite Hn. unfold notifications. cbn [trace map fst].
           rewrite <- !app_assoc, !notifications_of_app. cbn.
           rewrite <- app_assoc. reflexivity.
    + eexists _, _. split; [reflexivity|]. cbn.
      assert (Hno : ~ forall i0 p0, (i0, p0) ∈ (i, p) :: l ->
                                    overdue p0 (clock w) = true).
      { intros Hall0.
        assert (H : overdue p (clock w) = true) by (apply (Hall0 i p); left).
        congruence. }
      repeat split; try done.
      * intros i0 p0 Hin0. left. apply (Hrows i0 p0 Hin0).
      * intros e He. rewrite in_app_iff. tauto.
Qed.

(** The comparison of the loop is made on the normalized time and never
    raises: a naive time gets the IST offset, an aware one is kept. *)
Lemma normalized_comparison post w :
  (tzinfo (scheduled_time post) = None ->
   normalized (scheduled_time post) = replace_tzinfo (scheduled_time post) IST) /\
  (tzinfo (scheduled_time post) <> None ->
   normalized (scheduled_time post) = scheduled_time post) /\
  datetime_le (normalized (scheduled_time post))
              {| wall := clock w + IST; tzinfo := Some IST |}
    = Some (overdue post (clock w)).
Proof.
  unfold datetime_le, normalized, overdue, replace_tzinfo.
  destruct (tzinfo (scheduled_time post)) as [off|] eqn:Htz; cbn [tzinfo wall].
  - rewrite Htz. repeat split; try done. f_equal. f_equal. lia.
  - repeat split; try done. f_equal. f_equal. lia.
Qed.

(** What the whole reconciliation leaves, row by row, when the timer thread
    is idle. *)
Lemma startup_spec env w :
  session w = posts_db w -> timer_idle w ->
  exists w',
    startup env w = (w', inr tt) /\
    clock w' = clock w /\ uploads w' = uploads w /\ session w' = posts_db w' /\
    (forall i p, session w !! i = Some p ->
       session w' !! i =
         Some (if bool_decide (status p = "scheduled") && overdue p (clock w)
               then set_status "posted" p else p)) /\
    (forall i, session w !! i = None -> session w' !! i = None) /\
    (forall i p, session w !! i = Some p -> status p = "scheduled" ->
       overdue p (clock w) = false ->
       jobs w' !! _job_id i =
         registered env (normalized (scheduled_time p)) i (jobs w) !! _job_id i) /\
    (forall k,
       (forall i p, session w !! i = Some p -> status p = "scheduled" ->
                    overdue p (clock w) = false -> k <> _job_id i) ->
       jobs w' !! k = jobs w !! k) /\
    notifications w' =
      notifications w ++
      map (fun r => ("status_update", r.1, "posted"))
          (filter (fun r => overdue r.2 (clock w))
             (filter (fun r : Z * Post => String.eqb (status r.2) "scheduled")
                (rows_by_id (session w)))) /\
    (forall e, In e (trace w) -> In e (trace w')) /\
    (forall i p, session w !! i = Some p -> status p = "scheduled" ->
       overdue p (clock w) = false -> add_job_fails env (_job_id i) = true ->
       In (Logged ERROR (StartupAddFailed i)) (trace w')) /\
    timer_idle w'.
Proof.
  intros Hclean Hidle. unfold startup.
  erewrite bind_inr by reflexivity. erewrite bind_inr by reflexivity.
  set (l := filter (fun r : Z * Post => String.eqb (status r.2) "scheduled")
              (rows_by_id (session w))).
  set (w0 := record (Logged INFO (StartupFound (length l))) w).
  destruct (reconcile_loop env l w0) as
    (w' & Hf & Hc & Hu & Hcl & Hin & Hout & Hjin & Hjout & Hn & Ht & He & Hidle').
  { apply scheduled_rows_NoDup. }
  { intros i p Hin. apply scheduled_rows in Hin. exact Hin. }
  { exact Hclean. }
  { exact Hidle. }
  simpl in Hc, Hu, Hin, Hout, Hjin, Hjout, Hn, He.
  exists w'. split; [exact Hf|]. split; [exact Hc|]. split; [exact Hu|].
  split; [exact Hcl|].
  split; [|split; [|split; [|split; [|split; [|split; [|split]]]]]].
  - intros i p Hget. destruct (decide (status p = "scheduled")) as [Hs|Hs].
    + rewrite bool_decide_eq_true_2 by exact Hs. cbn [andb].
      apply Hin. apply scheduled_rows. auto.
    + rewrite bool_decide_eq_false_2 by exact Hs. cbn [andb].
      rewrite Hout; [exact Hget|].
      intros Hmem. apply list_elem_of_fmap in Hmem as ([i' p'] & -> & Hmem).
      apply scheduled_rows in Hmem as [Hget' Hs']. cbn [fst] in Hget.
      congruence.
  - intros i Hget. rewrite Hout; [exact Hget|].
    intros Hmem. apply list_elem_of_fmap in Hmem as ([i' p'] & -> & Hmem).
    apply scheduled_rows in Hmem as [Hget' Hs']. cbn [fst] in Hget. congruence.
  - intros i p Hget Hs Hov. rewrite (Hjin i p), Hov; [reflexivity|].
    apply scheduled_rows. auto.
  - intros k Hk.
    destruct (decide (Exists (fun r : Z * Post => k = _job_id r.1) l)) as [Hex|Hnex].
    + apply Exists_exists in Hex as ([i p] & Hmem & ->). cbn [fst].
      pose proof Hmem as Hrow. apply scheduled_rows in Hrow as [Hget Hs].
      destruct (overdue p (clock w)) eqn:Hov.
      * rewrite (Hjin i p Hmem), Hov. reflexivity.
      * exfalso. exact (Hk i p Hget Hs Hov eq_refl).
    + apply Hjout. intros i p Hmem ->. apply Hnex.
      apply Exists_exists. exists (i, p). split; [exact Hmem | reflexivity].
  - rewrite Hn. unfold w0. rewrite notifications_record_log. reflexivity.
  - intros e Hin0. apply Ht. unfold w0. simpl. rewrite in_app_iff. tauto.
  - intros i p Hget Hs Hov Hfail. apply (He i p); try assumption.
    apply scheduled_rows. auto.
  - exact Hidle'.
Qed.

(** What the reconciliation leaves while the timer thread is blocked. *)
Lemma startup_blocked_spec env w :
  session w = posts_db w -> timer_thread_blocked w = true ->
  exists w' r,
    startup env w = (w', r) /\
    clock w' = clock w /\ uploads w' = uploads w /\ session w' = posts_db w' /\
    jobs w' = jobs w /\
    (forall i p, session w !! i = Some p ->
       session w' !! i = Some p \/
       (status p = "scheduled" /\ overdue p (clock w) = true /\
        session w' !! i = Some (set_status "posted" p))) /\
    (forall i, session w !! i = None -> session w' !! i = None) /\
    (forall e, In e (trace w) -> In e (trace w')) /\
    ((exists i p, session w !! i = Some p /\ status p = "scheduled" /\
                  overdue p (clock w) = false) -> r = inl Deadlock) /\
    ((forall i p, session w !! i = Some p -> status p = "scheduled" ->
                  overdue p (clock w) = true) ->
     r = inr tt /\
     (forall i p, session w !! i = Some p -> status p = "scheduled" ->
                  session w' !! i = Some (set_status "posted" p)) /\
     notifications w' =
       notifications w ++
       map (fun r => ("status_update", r.1, "posted"))
           (filter (fun r : Z * Post => String.eqb (status r.2) "scheduled")
              (rows_by_id (session w)))).
Proof.
  intros Hclean Hblocked. unfold startup.
  erewrite bind_inr by reflexivity. erewrite bind_inr by reflexivity.
  set (l := filter (fun r : Z * Post => String.eqb (status r.2) "scheduled")
              (rows_by_id (session w))).
  set (w0 := record (Logged INFO (StartupFound (length l))) w).
  destruct (reconcile_loop_blocked env l w0) as
    (w' & r & Hf & Hc & Hu & Hcl & Hj & Hin & Hout & Ht & Hd & Hall).
  { apply scheduled_rows_NoDup. }
  { intros i p Hin. apply scheduled_rows in Hin. exact Hin. }
  { exact Hclean. }
  { exact Hblocked. }
  simpl in Hc, Hu, Hj, Hin, Hout, Hd, Hall.
  exists w', r. split; [exact Hf|]. split; [exact Hc|]. split; [exact Hu|].
  split; [exact Hcl|]. split; [exact Hj|].
  split; [|split; [|split; [|split]]].
  - intros i p Hget. destruct (decide (status p = "scheduled")) as [Hs|Hs].
    + destruct (Hin i p) as [H|[Hov H]]; [apply scheduled_rows; auto|left; exact H|].
      right. auto.
    + left. rewrite Hout; [exact Hget|].
      intros Hmem. apply list_elem_of_fmap in Hmem as ([i' p'] & -> & Hmem).
      apply scheduled_rows in Hmem as [Hget' Hs']. cbn [fst] in Hget.
      congruence.
  - intros i Hget. rewrite Hout; [exact Hget|].
    intros Hmem. apply list_elem_of_fmap in Hmem as ([i' p'] & -> & Hmem).
    apply scheduled_rows in Hmem as [Hget' Hs']. cbn [fst] in Hget. congruence.
  - intros e Hin0. apply Ht. unfold w0. simpl. rewrite in_app_iff. tauto.
  - intros (i & p & Hget & Hs & Hov). apply Hd. exists i, p.
    split; [apply scheduled_rows; auto | exact Hov].
  - intros Hall0. destruct Hall as (-> & Hposted & Hn).
    { intros i p Hmem. apply scheduled_rows in Hmem as [Hget Hs]. eauto. }
    split; [reflexivity|]. split.
    + intros i p Hget Hs. apply Hposted. apply scheduled_rows. auto.
    + rewrite Hn. unfold w0. rewrite notifications_record_log. reflexivity.
Qed.

(** What every reconciliation leaves, whether it returns or not: a row is
    kept, or it was scheduled and overdue and is now posted; a job entry
    changes only under the job id of a scheduled post that is not overdue. *)
Lemma startup_rows env w :
  session w = posts_db w ->
  exists w' r,
    startup env w = (w', r) /\ (r = inr tt \/ r = inl Deadlock) /\
    clock w' = clock w /\ uploads w' = uploads w /\ session w' = posts_db w' /\
    (forall i p, session w !! i = Some p ->
       session w' !! i = Some p \/
       (status p = "scheduled" /\ overdue p (clock w) = true /\
        session w' !! i = Some (set_status "posted" p))) /\
    (forall i, session w !! i = None -> session w' !! i = None) /\
    (forall k,
       (forall i p, session w !! i = Some p -> status p = "scheduled" ->
                    overdue p (clock w) = false -> k <> _job_id i) ->
       jobs w' !! k = jobs w !! k) /\
    (forall e, In e (trace w) -> In e (trace w')).
Proof.
  intros Hclean. destruct (timer_thread_blocked w) eqn:Hb.
  - destruct (startup_blocked_spec env w Hclean Hb)
      as (w' & r & Hst & Hc & Hu & Hcl & Hj & Hrow & Hnone & Ht & Hd & Hall).
    exists w', r. split; [exact Hst|]. split.
    { destruct (decide (Exists (fun r : Z * Post => overdue r.2 (clock w) = false)
                          (filter (fun r : Z * Post => String.eqb (status r.2) "scheduled")
                             (rows_by_id (session w))))) as [Hex|Hnex].
      - right. apply Hd. apply Exists_exists in Hex as ([i p] & Hmem & Hov).
        apply scheduled_rows in Hmem as [Hget Hs]. exists i, p. auto.
      - left. apply Hall. intros i p Hget Hs.
        destruct (overdue p (clock w)) eqn:Hov; [reflexivity|].
        exfalso. apply Hnex. apply Exists_exists. exists (i, p).
        split; [apply scheduled_rows; auto | exact Hov]. }
    split; [exact Hc|]. split; [exact Hu|]. split; [exact Hcl|].
    split; [exact Hrow|]. split; [exact Hnone|]. split; [|exact Ht].
    intros k _. rewrite Hj. reflexivity.
  - destruct (startup_spec env w Hclean (proj1 (timer_idle_blocked w) Hb))
      as (w' & Hst & Hc & Hu & Hcl & Hrow & Hnone & _ & Hjout & _ & Ht & _).
    exists w', (inr tt). split; [exact Hst|]. split; [left; reflexivity|].
    split; [exact Hc|]. split; [exact Hu|]. split; [exact Hcl|].
    split; [|split; [exact Hnone|split; [exact Hjout|exact Ht]]].
    intros i p Hget. rewrite (Hrow i p Hget).
    destruct (decide (status p = "scheduled")) as [Hs|Hs].
    + rewrite bool_decide_eq_true_2 by exact Hs. cbn [andb].
      destruct (overdue p (clock w)); [right; auto | left; reflexivity].
    + rewrite bool_decide_eq_false_2 by exact Hs. left. reflexivity.
Qed.

Lemma filter_all {A} (f : A -> bool) (l : list A) :
  (forall x, x ∈ l -> f x = true) -> filter (fun x => f x) l = l.
Proof.
  induction l as [|a l IH]; intros H; [reflexivity|].
  rewrite filter_cons_True by (rewrite (H a) by left; exact I).
  f_equal. apply IH. intros x Hx. apply H. right. exact Hx.
Qed.




(** X22: while the timer thread is idle, that is when no stored job is due
    as the process starts, the reconciliation returns normally and treats
    exactly the posts whose status is "scheduled", in the order of their
    ids.  For each of them the scheduled time is normalized (a naive one
    gets the IST offset) and compared with the clock, which cannot raise; an
    overdue post is published at once, so it is committed with status
    "posted" and its other columns unchanged when the routine returns, and
    no job is registered for it; any other gets a job at the normalized time
    under the job id of the post, unless the job store rejects it, in which
    case the error is logged and the loop goes on.  Posts with another
    status keep their row and their job entry.  The notifications emitted
    are one per overdue scheduled post, in the order of the ids.  No stored
    job is due afterwards either. *)
Theorem startup_reconciliation (env : Env) (w : World) :
  session w = posts_db w -> timer_idle w ->
  (startup env w).2 = inr tt /\
  let w' := (startup env w).1 in
  (forall post_id post,
     posts_db w !! post_id = Some post ->
     datetime_le (normalized (scheduled_time post))
                 {| wall := clock w + IST; tzinfo := Some IST |}
       = Some (overdue post (clock w)) /\
     if decide (status post = "scheduled")
     then
       if overdue post (clock w)
       then (exists post', posts_db w' !! post_id = Some post' /\
                           marked_posted post post') /\
            jobs w' !! _job_id post_id = jobs w !! _job_id post_id
       else posts_db w' !! post_id = Some post /\
            if add_job_fails env (_job_id post_id)
            then jobs w' !! _job_id post_id = jobs w !! _job_id post_id /\
                 In (Logged ERROR (StartupAddFailed post_id)) (trace w')
            else jobs w' !! _job_id post_id =
                   Some (mk_Job (normalized (scheduled_time post)) post_id)
     else posts_db w' !! post_id = Some post /\
          jobs w' !! _job_id post_id = jobs w !! _job_id post_id) /\
  (forall post_id,
     posts_db w !! post_id = None ->
     posts_db w' !! post_id = None /\
     jobs w' !! _job_id post_id = jobs w !! _job_id post_id) /\
  notifications w' =
    notifications w ++
    map (fun r => ("status_update", r.1, "posted"))
        (filter (fun r => overdue r.2 (clock w))
           (filter (fun r : Z * Post => String.eqb (status r.2) "scheduled")
              (rows_by_id (posts_db w)))) /\
  adjacent_in_order (fun a b : Z * Post => a.1 < b.1) (rows_by_id (posts_db w)) /\
  timer_idle w'.
Proof.
  intros Hclean Hidle.
  destruct (startup_spec env w Hclean Hidle)
    as (w' & -> & Hc & Hu & Hcl & Hrow & Hnone & Hjin & Hjout & Hn & Ht & He & Hidle').
  cbn [fst snd]. split; [reflexivity|]. rewrite <- Hclean, <- Hcl.
  split; [|split; [|split; [|split]]].
  - intros post_id post Hget.
    split; [apply normalized_comparison|].
    pose proof (Hrow post_id post Hget) as Hr.
    destruct (decide (status post = "scheduled")) as [Hs|Hs].
    + rewrite bool_decide_eq_true_2 in Hr by exact Hs. cbn [andb] in Hr.
      destruct (overdue post (clock w)) eqn:Hov.
      * split; [exists (set_status "posted" post);
                split; [exact Hr | apply set_status_marked]|].
        apply Hjout.
        intros i p Hget' _ Hov' E. apply _job_id_inj in E. subst i. congruence.
      * split; [exact Hr|].
        rewrite (Hjin post_id post Hget Hs Hov), registered_lookup_eq.
        destruct (add_job_fails env (_job_id post_id)) eqn:Hfail.
        -- split; [reflexivity|]. apply (He post_id post); assumption.
        -- reflexivity.
    + rewrite bool_decide_eq_false_2 in Hr by exact Hs. cbn [andb] in Hr.
      split; [exact Hr|]. apply Hjout.
      intros i p Hget' Hs' _ E. apply _job_id_inj in E. subst i. congruence.
  - intros post_id Hget. split; [apply Hnone; exact Hget|].
    apply Hjout. intros i p Hget' _ _ E. apply _job_id_inj in E. subst i.
    congruence.
  - exact Hn.
  - apply rows_by_id_ascending.
  - exact Hidle'.
Qed.

Lemma world_abc_idle : timer_idle world_abc.
Proof. intros k j H. cbn [jobs world_abc] in H. rewrite lookup_empty in H. discriminate. Qed.

Lemma startup_reconciliation_witness :
  (startup quiet world_abc).2 = inr tt /\
  (exists post', posts_db (startup quiet world_abc).1 !! 2 = Some post' /\
                 marked_posted post_b post') /\
  jobs (startup quiet world_abc).1 !! _job_id 3 =
    Some (mk_Job (normalized (scheduled_time post_c)) 3) /\
  posts_db (startup quiet world_abc).1 !! 1 = Some post_a.
Proof.
  destruct (startup_reconciliation quiet world_abc eq_refl world_abc_idle)
    as (Hr & Hrows & _).
  split; [exact Hr|].
  pose proof (Hrows 2 post_b eq_refl) as [_ H2].
  pose proof (Hrows 3 post_c eq_refl) as [_ H3].
  pose proof (Hrows 1 post_a eq_refl) as [_ H1].
  simpl in H2, H3, H1.
  split; [exact (proj1 H2)|]. split; [exact (proj2 H3) | exact (proj1 H1)].
Defined.

(** X23: the recovery after a downtime.  When every scheduled post is
    overdue, the reconciliation returns whatever the job store holds, due
    jobs included: it registers nothing, leaves the job store as it was,
    commits every scheduled post with status "posted" and its other columns
    unchanged, keeps every other post, and emits one notification per
    scheduled post, in the order of the ids. *)
Theorem startup_publishes_overdue_posts (env : Env) (w : World) :
  session w = posts_db w ->
  (forall post_id post, posts_db w !! post_id = Some post ->
     status post = "scheduled" -> overdue post (clock w) = true) ->
  (startup env w).2 = inr tt /\
  let w' := (startup env w).1 in
  jobs w' = jobs w /\
  (forall post_id post, posts_db w !! post_id = Some post ->
     if decide (status post = "scheduled")
     then exists post', posts_db w' !! post_id = Some post' /\
                        marked_posted post post'
     else posts_db w' !! post_id = Some post) /\
  (forall post_id, posts_db w !! post_id = None -> posts_db w' !! post_id = None) /\
  notifications w' =
    notifications w ++
    map (fun r => ("status_update", r.1, "posted"))
        (filter (fun r : Z * Post => String.eqb (status r.2) "scheduled")
           (rows_by_id (posts_db w))).
Proof.
  intros Hclean Hall. rewrite <- Hclean in Hall |- *.
  destruct (timer_thread_blocked w) eqn:Hb.
  - destruct (startup_blocked_spec env w Hclean Hb)
      as (w' & r & -> & _ & _ & Hcl & Hj & Hrow & Hnone & _ & _ & Hdone).
    destruct (Hdone Hall) as (-> & Hposted & Hn).
    cbn [fst snd]. rewrite <- Hcl.
    split; [reflexivity|]. split; [exact Hj|]. split; [|split; [exact Hnone|exact Hn]].
    intros i p Hget. destruct (decide (status p = "scheduled")) as [Hs|Hs].
    + exists (set_status "posted" p).
      split; [exact (Hposted i p Hget Hs) | apply set_status_marked].
    + destruct (Hrow i p Hget) as [Hkept|(Hs' & _)]; [exact Hkept | contradiction].
  - destruct (startup_spec env w Hclean (proj1 (timer_idle_blocked w) Hb))
      as (w' & -> & _ & _ & Hcl & Hrow & Hnone & _ & Hjout & Hn & _).
    cbn [fst snd]. rewrite <- Hcl.
    split; [reflexivity|]. split; [|split; [|split; [exact Hnone|]]].
    + apply map_eq. intros k. apply Hjout. intros i p Hget Hs Hov.
      rewrite (Hall i p Hget Hs) in Hov. discriminate.
    + intros i p Hget. rewrite (Hrow i p Hget).
      destruct (decide (status p = "scheduled")) as [Hs|Hs].
      * rewrite bool_decide_eq_true_2 by exact Hs. rewrite (Hall i p Hget Hs).
        exists (set_status "posted" p). split; [reflexivity | apply set_status_marked].
      * rewrite bool_decide_eq_false_2 by exact Hs. reflexivity.
    + rewrite Hn. f_equal. f_equal. apply filter_all.
      intros [i p] Hin. apply scheduled_rows in Hin as [Hget Hs].
      exact (Hall i p Hget Hs).
Qed.

Lemma startup_publishes_overdue_posts_witness :
  (startup quiet world_downtime).2 = inr tt /\
  jobs (startup quiet world_downtime).1 = jobs world_downtime /\
  (exists post', posts_db (startup quiet world_downtime).1 !! 2 = Some post' /\
                 marked_posted post_b post').
Proof.
  assert (Hall : forall post_id post, posts_db world_downtime !! post_id = Some post ->
            status post = "scheduled" -> overdue post (clock world_downtime) = true).
  { intros i p Hget Hs. cbn [posts_db world_downtime] in Hget.
    destruct (decide (i = 1)) as [->|H1];
      [vm_compute in Hget; injection Hget as <-; discriminate|].
    destruct (decide (i = 2)) as [->|H2];
      [vm_compute in Hget; injection Hget as <-; reflexivity|].
    unfold table_ab in Hget.
    rewrite lookup_insert_ne in Hget by congruence.
    rewrite lookup_singleton_ne in Hget by congruence. discriminate. }
  destruct (startup_publishes_overdue_posts quiet world_downtime eq_refl Hall)
    as (Hr & Hj & Hrows & _).
  split; [exact Hr|]. split; [exact Hj|].
  exact (Hrows 2 post_b eq_refl).
Defined.

(** ** One operation at a time *)

Lemma foldr_max_ge (l : list Z) k : k ∈ l -> k <= foldr Z.max 0 l.
Proof.
  induction l as [|x l IH]; intros Hin; [inversion Hin|].
  apply elem_of_cons in Hin as [->|Hin]; simpl; [lia|].
  specialize (IH Hin). lia.
Qed.

(** The key of a new row is not in use. *)
Lemma next_id_fresh (t : gmap Z Post) : t !! next_id t = None.
Proof.
  destruct (t !! next_id t) as [p|] eqn:Hget; [|reflexivity].
  exfalso. apply elem_of_map_to_list in Hget.
  assert (Hin : next_id t ∈ map fst (map_to_list t)).
  { apply list_elem_of_fmap. exists (next_id t, p). split; [reflexivity|exact Hget]. }
  apply foldr_max_ge in Hin. unfold next_id in Hin at 1. lia.
Qed.

Lemma step_clean env op w :
  session w = posts_db w -> session (step env op w) = posts_db (step env op w).
Proof. intros H. destruct op; try reflexivity. exact H. Qed.

Lemma step_index env w :
  posts_db (step env Index w) = posts_db w /\ jobs (step env Index w) = jobs w.
Proof. split; reflexivity. Qed.

Lemma step_tick env dt w :
  posts_db (step env (Tick dt) w) = posts_db w /\
  jobs (step env (Tick dt) w) = jobs w.
Proof. split; reflexivity. Qed.

(** A create changes nothing on [GET]; on [POST] it commits one new row,
    "scheduled", under a fresh id, and registers it behind the guard. *)
Lemma step_schedule env req w :
  session w = posts_db w ->
  let w' := step env (Schedule req) w in
  (posts_db w' = posts_db w /\ jobs w' = jobs w) \/
  (exists p, status p = "scheduled" /\
             posts_db w !! next_id (posts_db w) = None /\
             posts_db w' = <[next_id (posts_db w) := p]> (posts_db w) /\
             jobs w' = registered env (form_time req) (next_id (posts_db w)) (jobs w)).
Proof.
  intros Hclean. cbn [step]. destruct (method req) eqn:Hm.
  - left. unfold schedule. rewrite Hm. split; reflexivity.
  - right. destruct (schedule_spec env req w Hm) as (f & u & evs & ->).
    cbn. rewrite <- Hclean. eexists. split; [|split; [apply next_id_fresh|]].
    2:{ split; reflexivity. }
    reflexivity.
Qed.

(** An edit changes nothing when the post is missing, on [GET], and when
    the image step raises; otherwise it commits the edited row with the
    status it had and registers it behind the guard. *)
Lemma step_edit env post_id req w :
  session w = posts_db w ->
  let w' := step env (Edit post_id req) w in
  (posts_db w' = posts_db w /\ jobs w' = jobs w /\
   (edit env post_id req w).2 <> inr (Redirect "index")) \/
  (exists p0 p', posts_db w !! post_id = Some p0 /\ method req = POST /\
                 status p' = status p0 /\
                 (edit env post_id req w).2 = inr (Redirect "index") /\
                 posts_db w' = <[post_id := p']> (posts_db w) /\
                 jobs w' = registered env (form_time req) post_id (jobs w)).
Proof.
  intros Hclean. cbn [step].
  destruct (session w !! post_id) as [p0|] eqn:Hget.
  - destruct (method req) eqn:Hm.
    + left. unfold edit.
      erewrite bind_inr by (apply query_get_or_404_found; exact Hget).
      rewrite Hm. repeat split. discriminate.
    + destruct (edit_post_spec env post_id req w p0 Hget Hm)
        as (w' & res & -> & [(old & -> & _ & Hdb & Hj & _)
                            | (f & -> & Hs & Hdb & Hj & _)]); cbn.
      * left. repeat split; try assumption. discriminate.
      * right. exists p0, (set_image_filename f (edit_fields req p0)).
        rewrite <- Hclean. repeat split; try assumption.
        rewrite Hdb. exact Hs.
  - left. unfold edit.
    erewrite bind_inl by (apply query_get_or_404_missing; exact Hget).
    repeat split. discriminate.
Qed.

(** A delete changes nothing when the post is missing; otherwise the row
    and the job under its job id are gone. *)
Lemma step_delete env post_id w :
  session w = posts_db w ->
  let w' := step env (Delete post_id) w in
  (posts_db w !! post_id = None /\ posts_db w' = posts_db w /\ jobs w' = jobs w) \/
  (posts_db w' = base.delete post_id (posts_db w) /\
   jobs w' = base.delete (_job_id post_id) (jobs w)).
Proof.
  intros Hclean. cbn [step]. rewrite <- Hclean.
  destruct (session w !! post_id) as [p0|] eqn:Hget.
  - right. destruct (delete_spec env post_id w p0 Hget) as (note & img & u & -> & _).
    split; reflexivity.
  - left. unfold delete.
    erewrite bind_inl by (apply query_get_or_404_missing; exact Hget).
    cbn. repeat split; symmetry; exact Hclean.
Qed.

(** The timer thread leaves the posts alone; it discards the entry when
    there is one and it is due. *)
Lemma step_dequeue env job_id w :
  let w' := step env (Dequeue job_id) w in
  posts_db w' = posts_db w /\
  (jobs w' = jobs w \/
   exists j, jobs w !! job_id = Some j /\ job_due j (clock w) = true /\
             jobs w' = base.delete job_id (jobs w)).
Proof.
  cbn [step]. unfold scheduler_dequeue.
  destruct (jobs w !! job_id) as [j|] eqn:Hjob; [|split; [|left]; reflexivity].
  destruct (job_due j (clock w)) eqn:Hdue; [|split; [|left]; reflexivity].
  split; [reflexivity|]. right. exists j. auto.
Qed.

(** A callback leaves the job store alone; it changes a row only to mark a
    scheduled post posted. *)
Lemma step_callback env post_id w :
  session w = posts_db w ->
  let w' := step env (Callback post_id) w in
  jobs w' = jobs w /\
  (posts_db w' = posts_db w \/
   exists p, posts_db w !! post_id = Some p /\ status p = "scheduled" /\
             posts_db w' = <[post_id := set_status "posted" p]> (posts_db w)).
Proof.
  intros Hclean. cbn [step]. unfold scheduler_callback. rewrite <- Hclean.
  destruct (session w !! post_id) as [p|] eqn:Hget.
  - destruct (decide (status p = "scheduled")) as [Hs|Hs].
    + rewrite (publish_post_marks _ _ _ Hget Hs). cbn.
      split; [reflexivity|]. right. exists p. auto.
    + rewrite (publish_post_skip _ _ _ Hget Hs). cbn.
      split; [reflexivity|]. left. symmetry. exact Hclean.
  - rewrite (publish_post_absent _ _ Hget). cbn.
    split; [reflexivity|]. left. symmetry. exact Hclean.
Qed.

(** ** Invariants of the job store *)

Lemma for_each_preserves {A} (I : World -> Prop) (l : list A) (body : A -> M unit) :
  (forall x w, I w -> I (body x w).1) ->
  forall w, I w -> I (for_each l body w).1.
Proof.
  intros Hbody. induction l as [|x l IH]; intros w Hw; simpl; [exact Hw|].
  unfold bind. pose proof (Hbody x w Hw) as H1.
  destruct (body x w) as [w1 [e|[]]]; simpl in *; [exact H1|].
  apply IH. exact H1.
Qed.

Lemma keyed_registered env run i (js : gmap string Job) :
  (forall k j, js !! k = Some j -> k = _job_id (args j)) ->
  forall k j, registered env run i js !! k = Some j -> k = _job_id (args j).
Proof.
  intros Hk k j. unfold registered.
  destruct (add_job_fails env (_job_id i)); [apply Hk|].
  destruct (decide (_job_id i = k)) as [<-|Hne].
  - rewrite lookup_insert_eq. intros [= <-]. reflexivity.
  - rewrite lookup_insert_ne by exact Hne. apply Hk.
Qed.

Lemma keyed_delete k0 (js : gmap string Job) :
  (forall k j, js !! k = Some j -> k = _job_id (args j)) ->
  forall k j, base.delete k0 js !! k = Some j -> k = _job_id (args j).
Proof.
  intros Hk k j Hget. apply lookup_delete_Some in Hget as [_ Hget].
  exact (Hk k j Hget).
Qed.

Lemma startup_keeps_keyed env w : jobs_keyed w -> jobs_keyed (startup env w).1.
Proof.
  intros Hk. unfold startup.
  erewrite bind_inr by reflexivity. erewrite bind_inr by reflexivity.
  apply for_each_preserves; [|exact Hk].
  intros [i p] v Hv. rewrite startup_body_eq.
  destruct (overdue p (clock v)).
  - unfold jobs_keyed. rewrite publish_post_jobs. exact Hv.
  - destruct (timer_thread_blocked v); [exact Hv|].
    unfold jobs_keyed. cbn. apply keyed_registered. exact Hv.
Qed.

Lemma step_keeps_keyed env op w :
  session w = posts_db w -> jobs_keyed w -> jobs_keyed (step env op w).
Proof.
  intros Hclean Hk. destruct op.
  - apply (startup_keeps_keyed env w Hk).
  - exact Hk.
  - destruct (step_schedule env req w Hclean) as [[_ Hj]|(p & _ & _ & _ & Hj)];
      unfold jobs_keyed; rewrite Hj; [exact Hk | apply keyed_registered; exact Hk].
  - destruct (step_edit env post_id req w Hclean)
      as [(_ & Hj & _)|(p0 & p' & _ & _ & _ & _ & _ & Hj)];
      unfold jobs_keyed; rewrite Hj; [exact Hk | apply keyed_registered; exact Hk].
  - destruct (step_delete env post_id w Hclean) as [(_ & _ & Hj)|[_ Hj]];
      unfold jobs_keyed; rewrite Hj; [exact Hk | apply keyed_delete; exact Hk].
  - destruct (step_dequeue env job_id w) as [_ [Hj|(j & _ & _ & Hj)]];
      unfold jobs_keyed; rewrite Hj; [exact Hk | apply keyed_delete; exact Hk].
  - destruct (step_callback env post_id w Hclean) as [Hj _].
    unfold jobs_keyed. rewrite Hj. exact Hk.
  - exact Hk.
Qed.

(** Under the key discipline the entries of a post are what is stored under
    its job id. *)
Lemma entries_of_keyed post_id w :
  jobs_keyed w ->
  entries_of post_id w =
    match jobs w !! _job_id post_id with
    | Some j => {[ _job_id post_id := j ]}
    | None => ∅
    end.
Proof.
  intros Hk. unfold entries_of. apply map_eq. intros k. apply option_eq. intros j.
  rewrite map_lookup_filter_Some. cbn [snd]. split.
  - intros [Hget Hargs]. pose proof (Hk k j Hget) as ->. rewrite Hargs in *.
    rewrite Hget. apply lookup_singleton_eq.
  - destruct (jobs w !! _job_id post_id) as [j0|] eqn:Hget.
    + intros Hs. apply lookup_singleton_Some in Hs as [<- <-].
      split; [exact Hget|]. apply Hk in Hget. apply _job_id_inj in Hget.
      symmetry. exact Hget.
    + rewrite lookup_empty. discriminate.
Qed.

Lemma entries_of_empty post_id w :
  jobs_keyed w ->
  entries_of post_id w = ∅ <-> jobs w !! _job_id post_id = None.
Proof.
  intros Hk. rewrite (entries_of_keyed _ _ Hk).
  destruct (jobs w !! _job_id post_id) as [j|]; split; done.
Qed.

Lemma entries_of_at_most_one post_id w :
  jobs_keyed w -> (size (entries_of post_id w) <= 1)%nat.
Proof.
  intros Hk. rewrite (entries_of_keyed _ _ Hk).
  destruct (jobs w !! _job_id post_id).
  - rewrite map_size_singleton. lia.
  - rewrite map_size_empty. lia.
Qed.

(** A process start, whether the reconciliation returns or not. *)
Lemma step_startup env w :
  session w = posts_db w ->
  let w' := step env Startup w in
  (forall i p, posts_db w !! i = Some p ->
     posts_db w' !! i = Some p \/
     (status p = "scheduled" /\ overdue p (clock w) = true /\
      posts_db w' !! i = Some (set_status "posted" p))) /\
  (forall i, posts_db w !! i = None -> posts_db w' !! i = None) /\
  (forall i,
     (forall p, posts_db w !! i = Some p -> status p = "scheduled" ->
                overdue p (clock w) = false -> False) ->
     jobs w' !! _job_id i = jobs w !! _job_id i).
Proof.
  intros Hclean. cbn [step].
  destruct (startup_rows env w Hclean)
    as (w' & r & -> & _ & _ & _ & Hcl & Hrow & Hnone & Hjout & _).
  cbn. rewrite <- Hcl, <- Hclean. split; [exact Hrow|]. split; [exact Hnone|].
  intros i Hi. apply Hjout. intros i' p Hget Hs Hov E.
  apply _job_id_inj in E. subst i'. exact (Hi p Hget Hs Hov).
Qed.

(** ** Status is monotonic *)

(** One operation: a posted post stays posted unless the operation is the
    deletion of that very post. *)
Lemma step_keeps_posted env op w post_id post :
  session w = posts_db w ->
  posts_db w !! post_id = Some post -> status post = "posted" ->
  op = Delete post_id \/
  exists post', posts_db (step env op w) !! post_id = Some post' /\
                status post' = "posted".
Proof.
  intros Hclean Hget Hs. destruct op as [| |req|i req|i|k|i|dt].
  - right. destruct (step_startup env w Hclean) as (Hrow & _).
    destruct (Hrow post_id post Hget) as [Hkept|(_ & _ & Hmarked)]; eauto.
  - right. eauto.
  - right. destruct (step_schedule env req w Hclean)
      as [[-> _]|(p & _ & Hfresh & -> & _)]; [eauto|].
    rewrite lookup_insert_ne by congruence. eauto.
  - right. destruct (step_edit env i req w Hclean)
      as [(-> & _)|(p0 & p' & Hp0 & _ & Hst & _ & -> & _)]; [eauto|].
    destruct (decide (i = post_id)) as [->|Hne].
    + rewrite lookup_insert_eq. exists p'. split; [reflexivity|]. congruence.
    + rewrite lookup_insert_ne by exact Hne. eauto.
  - destruct (decide (i = post_id)) as [->|Hne]; [left; reflexivity|].
    right. destruct (step_delete env i w Hclean) as [(_ & -> & _)|[-> _]]; [eauto|].
    rewrite lookup_delete_ne by exact Hne. eauto.
  - right. destruct (step_dequeue env k w) as [-> _]. eauto.
  - right. destruct (step_callback env i w Hclean)
      as [_ [->|(p & _ & _ & ->)]]; [eauto|].
    destruct (decide (i = post_id)) as [->|Hne].
    + rewrite lookup_insert_eq. eauto.
    + rewrite lookup_insert_ne by exact Hne. eauto.
  - right. eauto.
Qed.

Lemma run_clean steps : forall w,
  session w = posts_db w -> session (run steps w) = posts_db (run steps w).
Proof.
  induction steps as [|[env op] steps IH]; intros w Hclean; [exact Hclean|].
  apply (IH (step env op w)). apply step_clean. exact Hclean.
Qed.

(** C2: from a state in which a post is "posted", whatever operations
    follow (process starts, listings, creates, edits, deletes, the timer
    thread discarding due entries, callbacks of the scheduler, time
    passing, each with any behaviour of the job store and the file system),
    the post is still stored with status "posted", unless one of the
    operations was the deletion of that post. *)
Theorem status_monotonic (steps : list (Env * Op)) (w : World) (post_id : Z) (post : Post) :
  session w = posts_db w ->
  posts_db w !! post_id = Some post -> status post = "posted" ->
  (exists post', posts_db (run steps w) !! post_id = Some post' /\
                 status post' = "posted") \/
  Exists (fun s => s.2 = Delete post_id) steps.
Proof.
  revert w post. induction steps as [|[env op] steps IH]; intros w post Hclean Hget Hs.
  - left. eauto.
  - destruct (step_keeps_posted env op w post_id post Hclean Hget Hs)
      as [->|(post' & Hget' & Hs')].
    + right. left. reflexivity.
    + destruct (IH (step env op w) post' (step_clean env op w Hclean) Hget' Hs')
        as [Hkept|Hdel].
      * left. exact Hkept.
      * right. right. exact Hdel.
Qed.

Lemma status_monotonic_witness :
  (exists post',
     posts_db (run [(quiet, Edit 1 request_post); (quiet, Startup);
                    (rejecting, Schedule request_post); (quiet, Dequeue "post_1");
                    (quiet, Callback 1); (quiet, Delete 2)] world_abc) !! 1
       = Some post' /\
     status post' = "posted") \/
  Exists (fun s : Env * Op => s.2 = Delete 1)
    [(quiet, Edit 1 request_post); (quiet, Startup);
     (rejecting, Schedule request_post); (quiet, Dequeue "post_1");
     (quiet, Callback 1); (quiet, Delete 2)].
Proof.
  exact (status_monotonic _ world_abc 1 post_a eq_refl eq_refl eq_refl).
Defined.

(** ** Posts and their scheduler entries *)

Lemma posted_no_job w post_id post :
  jobs_keyed w -> posted_unscheduled w ->
  posts_db w !! post_id = Some post -> status post = "posted" ->
  jobs w !! _job_id post_id = None.
Proof.
  intros Hk Hpu Hget Hs. apply (entries_of_empty _ _ Hk).
  exact (Hpu post_id post Hget Hs).
Qed.

Lemma step_keeps_posted_unscheduled env op w :
  session w = posts_db w -> jobs_keyed w ->
  posted_unscheduled w -> ~ leaves_stale_entry op w ->
  posted_unscheduled (step env op w).
Proof.
  intros Hclean Hk Hpu Hstale.
  pose proof (step_keeps_keyed env op w Hclean Hk) as Hk'.
  intros post_id post' Hget' Hs'. apply (entries_of_empty _ _ Hk').
  destruct op as [| |req|i req|i|k|i|dt].
  - destruct (step_startup env w Hclean) as (Hrow & Hnone & Hj).
    destruct (posts_db w !! post_id) as [p|] eqn:Hget.
    2:{ rewrite (Hnone post_id Hget) in Hget'. discriminate. }
    destruct (decide (status p = "scheduled")) as [Hs|Hs].
    + destruct (overdue p (clock w)) eqn:Hov.
      2:{ destruct (Hrow post_id p Hget) as [Hkept|(_ & Hov' & _)]; [|congruence].
          rewrite Hkept in Hget'. injection Hget' as <-.
          rewrite Hs in Hs'. discriminate. }
      rewrite Hj by (intros p1 Hp1 _ Hov1; congruence).
      destruct (jobs w !! _job_id post_id) as [j|] eqn:Hjob; [|reflexivity].
      exfalso. apply Hstale. exists post_id, p.
      repeat split; try assumption.
      rewrite (entries_of_empty _ _ Hk), Hjob. discriminate.
    + destruct (Hrow post_id p Hget) as [Hkept|(Hs1 & _)]; [|contradiction].
      rewrite Hkept in Hget'. injection Hget' as <-.
      rewrite Hj by (intros p1 Hp1 Hs1 _; congruence).
      exact (posted_no_job w post_id p Hk Hpu Hget Hs').
  - exact (posted_no_job w post_id post' Hk Hpu Hget' Hs').
  - destruct (step_schedule env req w Hclean)
      as [[Hdb Hj]|(p & Hp & Hfresh & Hdb & Hj)]; rewrite Hdb in Hget'; rewrite Hj.
    + exact (posted_no_job w post_id post' Hk Hpu Hget' Hs').
    + destruct (decide (next_id (posts_db w) = post_id)) as [<-|Hne].
      * rewrite lookup_insert_eq in Hget'. injection Hget' as <-.
        rewrite Hp in Hs'. discriminate.
      * rewrite lookup_insert_ne in Hget' by exact Hne.
        rewrite registered_lookup_ne
          by (intros E; apply _job_id_inj in E; congruence).
        exact (posted_no_job w post_id post' Hk Hpu Hget' Hs').
  - destruct (step_edit env i req w Hclean)
      as [(Hdb & Hj & _)|(p0 & p' & Hp0 & Hm & Hst & _ & Hdb & Hj)];
      rewrite Hdb in Hget'; rewrite Hj.
    + exact (posted_no_job w post_id post' Hk Hpu Hget' Hs').
    + destruct (decide (i = post_id)) as [->|Hne].
      * rewrite lookup_insert_eq in Hget'. injection Hget' as <-.
        exfalso. apply Hstale. split; [exact Hm|]. exists p0.
        split; [exact Hp0 | congruence].
      * rewrite lookup_insert_ne in Hget' by exact Hne.
        rewrite registered_lookup_ne
          by (intros E; apply _job_id_inj in E; congruence).
        exact (posted_no_job w post_id post' Hk Hpu Hget' Hs').
  - destruct (step_delete env i w Hclean) as [(_ & Hdb & Hj)|[Hdb Hj]];
      rewrite Hdb in Hget'; rewrite Hj.
    + exact (posted_no_job w post_id post' Hk Hpu Hget' Hs').
    + apply lookup_delete_Some in Hget' as [_ Hget'].
      apply lookup_delete_None. right.
      exact (posted_no_job w post_id post' Hk Hpu Hget' Hs').
  - destruct (step_dequeue env k w) as [Hdb [Hj|(j & _ & _ & Hj)]];
      rewrite Hdb in Hget'; rewrite Hj.
    + exact (posted_no_job w post_id post' Hk Hpu Hget' Hs').
    + apply lookup_delete_None. right.
      exact (posted_no_job w post_id post' Hk Hpu Hget' Hs').
  - destruct (step_callback env i w Hclean) as [Hj [Hdb|(p & Hp & Hsp & Hdb)]];
      rewrite Hdb in Hget'; rewrite Hj.
    + exact (posted_no_job w post_id post' Hk Hpu Hget' Hs').
    + destruct (decide (i = post_id)) as [->|Hne].
      * destruct (jobs w !! _job_id post_id) as [j|] eqn:Hjob; [|reflexivity].
        exfalso. apply Hstale. exists p.
        repeat split; try assumption.
        rewrite (entries_of_empty _ _ Hk), Hjob. discriminate.
      * rewrite lookup_insert_ne in Hget' by exact Hne.
        exact (posted_no_job w post_id post' Hk Hpu Hget' Hs').
  - exact (posted_no_job w post_id post' Hk Hpu Hget' Hs').
Qed.

(** C3, as the specification words it, fails: in [world_abc] post 1 is
    "posted" and the job store is empty, so the invariant holds; a [POST] to
    [edit] for post 1, with a scheduled time still ahead of the clock,
    registers a job for it and leaves it "posted". *)
Lemma entry_invariant_broken_by_edit :
  entry_invariant world_abc /\
  let w' := step quiet (Edit 1 request_later) world_abc in
  (exists post, posts_db w' !! 1 = Some post /\ status post = "posted") /\
  jobs w' !! "post_1" = Some (mk_Job (form_time request_later) 1) /\
  ~ entry_invariant w'.
Proof.
  split; [|split; [|split]].
  - intros post_id post _. unfold entries_of. cbn [jobs world_abc].
    rewrite map_filter_empty.
    split; intros _; [rewrite map_size_empty; lia | reflexivity].
  - eexists. split; reflexivity.
  - reflexivity.
  - intros Hinv.
    destruct (Hinv 1 (set_image_filename None (edit_fields request_later post_a)) eq_refl)
      as [_ Hposted].
    specialize (Hposted eq_refl).
    apply (f_equal (fun m : gmap string Job => m !! _job_id 1)) in Hposted.
    vm_compute in Hposted. discriminate.
Qed.

(** The other way to a live entry of a posted post: post 2 is overdue and
    its entry is still in the job store when the process starts; the
    reconciliation publishes it and the entry stays. *)
Example reconciliation_leaves_entry :
  let w := with_jobs {[ "post_2" := mk_Job (mk_datetime 50 (Some IST)) 2 ]} world_abc in
  let w' := step quiet Startup w in
  posts_db w' !! 2 = Some (set_status "posted" post_b) /\
  jobs w' !! "post_2" = Some (mk_Job (mk_datetime 50 (Some IST)) 2).
Proof. split; reflexivity. Qed.

(** The third way: the timer thread has discarded the entry of post 3 and
    submitted its callback; before a worker runs it an [edit] registers
    the post again; the callback then publishes the post and the new entry
    stays, to fire later and find the post posted. *)
Example callback_after_edit_leaves_entry :
  let w' := run [(quiet, Tick 80000000000); (quiet, Dequeue "post_3");
                 (quiet, Edit 3 request_later); (quiet, Callback 3)]
                world_registered in
  (exists post, posts_db w' !! 3 = Some post /\ status post = "posted") /\
  jobs w' !! "post_3" = Some (mk_Job (form_time request_later) 3).
Proof. split; [eexists; split; reflexivity | reflexivity]. Qed.

Lemma run_keeps_keyed steps : forall w,
  session w = posts_db w -> jobs_keyed w -> jobs_keyed (run steps w).
Proof.
  induction steps as [|[env op] steps IH]; intros w Hclean Hk; [exact Hk|].
  apply (IH (step env op w)).
  - apply step_clean. exact Hclean.
  - apply step_keeps_keyed; assumption.
Qed.

Lemma run_keeps_posted_unscheduled steps : forall w,
  session w = posts_db w -> jobs_keyed w -> posted_unscheduled w ->
  never_stale steps w -> posted_unscheduled (run steps w).
Proof.
  induction steps as [|[env op] steps IH]; intros w Hclean Hk Hpu Hns; [exact Hpu|].
  destruct Hns as [Hstale Hns]. apply (IH (step env op w)).
  - apply step_clean. exact Hclean.
  - apply step_keeps_keyed; assumption.
  - apply step_keeps_posted_unscheduled; assumption.
  - exact Hns.
Qed.

(** C3, amended: start from a state in which every live entry sits under
    the job id of the post it is bound to.  After every history of
    operations that is still so, and every post, scheduled or posted, has at
    most one live entry.  If moreover no posted post had a live entry at the
    start, and no operation of the history was a [POST] to [edit] for a
    posted post, a reconciliation publishing a post whose entry was still
    stored, or a callback publishing a post for which an entry was stored,
    then the invariant of the specification holds after the history: at
    most one live entry for a scheduled post, none for a posted one. *)
Theorem scheduler_entries_invariant (history : list (Env * Op)) (w : World) :
  session w = posts_db w -> jobs_keyed w ->
  let w' := run history w in
  jobs_keyed w' /\
  (forall post_id, (size (entries_of post_id w') <= 1)%nat) /\
  (posted_unscheduled w -> never_stale history w -> entry_invariant w').
Proof.
  intros Hclean Hk w'.
  pose proof (run_keeps_keyed history w Hclean Hk) as Hk'.
  split; [exact Hk'|]. split.
  - intros post_id. apply entries_of_at_most_one. exact Hk'.
  - intros Hpu Hns post_id post Hget. split.
    + intros _. apply entries_of_at_most_one. exact Hk'.
    + intros Hs.
      exact (run_keeps_posted_unscheduled history w Hclean Hk Hpu Hns
               post_id post Hget Hs).
Qed.

Lemma world_registered_keyed : jobs_keyed world_registered.
Proof.
  intros k j H. cbn [jobs world_registered] in H.
  apply lookup_singleton_Some in H as [<- <-]. reflexivity.
Qed.

Lemma world_registered_posted_unscheduled : posted_unscheduled world_registered.
Proof.
  intros post_id post Hget Hs.
  apply (entries_of_empty _ _ world_registered_keyed).
  cbn [jobs world_registered]. apply lookup_singleton_None.
  intros E. apply (_job_id_inj 3 post_id) in E. subst post_id.
  vm_compute in Hget. injection Hget as <-. discriminate.
Qed.

Lemma scheduler_entries_invariant_witness :
  let w' := run [(quiet, Edit 3 request_later); (quiet, Tick 80000000000);
                 (quiet, Dequeue "post_3"); (quiet, Callback 3)]
                world_registered in
  jobs_keyed w' /\
  (forall post_id, (size (entries_of post_id w') <= 1)%nat) /\
  entry_invariant w'.
Proof.
  destruct (scheduler_entries_invariant
              [(quiet, Edit 3 request_later); (quiet, Tick 80000000000);
               (quiet, Dequeue "post_3"); (quiet, Callback 3)]
              world_registered eq_refl world_registered_keyed)
    as (Hk & Hone & Hinv).
  split; [exact Hk|]. split; [exact Hone|].
  apply Hinv; [exact world_registered_posted_unscheduled|].
  cbn [never_stale fst snd leaves_stale_entry].
  split; [|split; [|split; [|split; [|exact I]]]].
  - intros [_ (post & Hget & Hs)].
    vm_compute in Hget. injection Hget as <-. discriminate.
  - intros [].
  - intros [].
  - intros (post & _ & _ & Hentries). apply Hentries. reflexivity.
Defined.

(** ** Re-registration *)

Lemma edits_keep_post (earlier : list (Env * Request)) post_id : forall w post,
  session w = posts_db w -> jobs_keyed w -> posts_db w !! post_id = Some post ->
  let w1 := run (map (fun er => (er.1, Edit post_id er.2)) earlier) w in
  session w1 = posts_db w1 /\ jobs_keyed w1 /\
  exists post1, posts_db w1 !! post_id = Some post1.
Proof.
  induction earlier as [|[env req] earlier IH]; intros w post Hclean Hk Hget.
  - cbn. eauto.
  - cbn [map run foldl fst snd].
    assert (exists post', posts_db (step env (Edit post_id req) w) !! post_id = Some post')
      as [post' Hget'].
    { destruct (step_edit env post_id req w Hclean)
        as [(-> & _)|(p0 & p' & _ & _ & _ & _ & -> & _)]; [eauto|].
      rewrite lookup_insert_eq. eauto. }
    apply (IH (step env (Edit post_id req) w) post').
    + apply step_clean. exact Hclean.
    + apply step_keeps_keyed; assumption.
    + exact Hget'.
Qed.

(** C5, amended: in [app.py], [edit] registers the post's job under
    [_job_id post_id] with [replace_existing=True], whatever the new
    scheduled time is.  So after any number of earlier edits of a post, an
    edit that completes and whose registration the job store accepts leaves
    exactly one live entry for the post: the one under its job id, at the
    time of this last edit. *)
Theorem edit_replaces_registration
    (earlier : list (Env * Request)) (env : Env) (req : Request)
    (w : World) (post_id : Z) (post : Post) :
  session w = posts_db w -> jobs_keyed w ->
  posts_db w !! post_id = Some post ->
  let w1 := run (map (fun er => (er.1, Edit post_id er.2)) earlier) w in
  method req = POST ->
  add_job_fails env (_job_id post_id) = false ->
  (edit env post_id req w1).2 = inr (Redirect "index") ->
  In (CallAddJob (_job_id post_id) (form_time req) post_id)
     (trace (edit env post_id req w1).1) /\
  entries_of post_id (step env (Edit post_id req) w1) =
    {[ _job_id post_id := mk_Job (form_time req) post_id ]}.
Proof.
  intros Hclean Hk Hget w1 Hm Hok Hdone.
  destruct (edits_keep_post earlier post_id w post Hclean Hk Hget)
    as (Hclean1 & Hk1 & post1 & Hget1).
  fold w1 in Hclean1, Hk1, Hget1. split.
  - rewrite <- Hclean1 in Hget1.
    destruct (edit_post_spec env post_id req w1 post1 Hget1 Hm)
      as (w' & res & Heq & [(old & -> & _) | (f & _ & _ & _ & _ & _ & Hcall & _)]);
      rewrite Heq in *; cbn in *; [discriminate | exact Hcall].
  - rewrite (entries_of_keyed _ _ (step_keeps_keyed _ _ _ Hclean1 Hk1)).
    destruct (step_edit env post_id req w1 Hclean1)
      as [(_ & _ & Hno)|(p0 & p' & _ & _ & _ & _ & _ & ->)]; [contradiction|].
    rewrite registered_lookup_eq, Hok. reflexivity.
Qed.

Lemma edit_replaces_registration_witness :
  entries_of 3
    (step quiet (Edit 3 request_later)
       (run [(quiet, Edit 3 request_post); (rejecting, Edit 3 request_later)]
            world_registered))
  = {[ _job_id 3 := mk_Job (form_time request_later) 3 ]}.
Proof.
  exact (proj2 (edit_replaces_registration
                  [(quiet, request_post); (rejecting, request_later)]
                  quiet request_later world_registered 3 post_c
                  eq_refl world_registered_keyed eq_refl eq_refl eq_refl eq_refl)).
Defined.

(** ** The draft *)

(** In [tempCodeRunnerFile.py] neither [edit] nor [delete] reaches the
    scheduler: whatever the request, the job store is as before, so an edit
    leaves the old fire time in place and a delete leaves the job behind. *)
Lemma draft_never_calls_scheduler env post_id req w :
  jobs (TempCodeRunnerFile.edit env post_id req w).1 = jobs w /\
  jobs (TempCodeRunnerFile.delete env post_id w).1 = jobs w.
Proof.
  split.
  - unfold TempCodeRunnerFile.edit.
    destruct (session w !! post_id) as [post|] eqn:Hget.
    + erewrite bind_inr by (apply query_get_or_404_found; exact Hget).
      destruct (method req); [reflexivity|]. unfold_M.
      destruct (truthy (files_image req)); reflexivity.
    + erewrite bind_inl by (apply query_get_or_404_missing; exact Hget).
      reflexivity.
  - unfold TempCodeRunnerFile.delete.
    destruct (session w !! post_id) as [post|] eqn:Hget.
    + erewrite bind_inr by (apply query_get_or_404_found; exact Hget).
      unfold_M. unfold os_remove.
      destruct (truthy (image_filename post)) as [path|]; [|reflexivity].
      destruct (bool_decide (path ∈ uploads w)); [|reflexivity].
      destruct (os_remove_fails env path); reflexivity.
    + erewrite bind_inl by (apply query_get_or_404_missing; exact Hget).
      reflexivity.
Qed.

(** C5, as the claim cites both files, fails for the draft.  A post created
    through the draft's [schedule] has its job at the submitted time; a
    [POST] to the draft's [edit] with another time commits the new time and
    nothing else: no registration is made, and the one live entry of the
    post is still at the time given at creation, not at the time edited
    last. *)
Lemma draft_edit_leaves_old_fire_time :
  let w := (TempCodeRunnerFile.schedule (fun d => wall d) quiet
              request_later world_abc).1 in
  let r := TempCodeRunnerFile.edit quiet 4 request_post w in
  r.2 = inr (Redirect "index") /\
  (exists post, posts_db r.1 !! 4 = Some post /\
                scheduled_time post = form_time request_post) /\
  trace r.1 = trace w ++ [Commit] /\
  entries_of 4 r.1 =
    {[ "post_4_95000000000" := mk_Job (form_time request_later) 4 ]} /\
  form_time request_later <> form_time request_post.
Proof.
  split; [reflexivity|]. split; [eexists; split; reflexivity|].
  split; [reflexivity|]. split; [reflexivity | discriminate].
Qed.

(** C7, as the claim cites both files, fails for the draft.  Its [delete]
    has no cancellation step: on a post created through the draft's
    [schedule] the call deletes the row and commits, and that is all; the
    job of the deleted post is still in the job store. *)
Lemma draft_delete_skips_cancellation :
  let w := (TempCodeRunnerFile.schedule (fun d => wall d) quiet
              request_later world_abc).1 in
  let r := TempCodeRunnerFile.delete quiet 4 w in
  r.2 = inr (Redirect "index") /\
  posts_db r.1 !! 4 = None /\
  trace r.1 = trace w ++ [SessionDelete 4; Commit] /\
  jobs r.1 !! "post_4_95000000000" = Some (mk_Job (form_time request_later) 4).
Proof. repeat split. Qed.

Example draft_edit_keeps_stale_time :
  jobs (TempCodeRunnerFile.edit quiet 3 request_later world_registered).1 !! "post_3"
  = Some (mk_Job (mk_datetime 90000000000 (Some IST)) 3).
Proof. reflexivity. Qed.

(** * Further properties of the code *)

(** ** Job ids and the Publish Handler *)

(** X1: the job id of a post determines the post: two posts have the same
    job id only if they are the same post, whatever the sign and size of the
    ids. *)
Theorem job_id_determines_post (i j : Z) : _job_id i = _job_id j <-> i = j.
Proof.
  split.
  - apply _job_id_inj.
  - intros ->. reflexivity.
Qed.

(** X2: [publish_post] is idempotent: a second call for the same id, right
    after the first, changes no store and emits nothing, whatever the first
    call found. *)
Theorem publish_post_idempotent (post_id : Z) (w : World) :
  let w1 := (publish_post post_id w).1 in
  let w2 := (publish_post post_id w1).1 in
  same_state w1 w2 /\ notifications w2 = notifications w1.
Proof.
  destruct (session w !! post_id) as [post|] eqn:Hget.
  - destruct (decide (status post = "scheduled")) as [Hs|Hs].
    + rewrite (publish_post_marks _ _ _ Hget Hs). cbn [fst].
      erewrite publish_post_skip;
        [|cbn [session]; apply lookup_insert_eq | cbn; discriminate].
      cbn [fst]. split; [apply same_state_record | apply notifications_record_log].
    + rewrite (publish_post_skip _ _ _ Hget Hs). cbn [fst].
      erewrite publish_post_skip; [|cbn [session record]; exact Hget | exact Hs].
      cbn [fst]. split; [apply same_state_record | apply notifications_record_log].
  - rewrite (publish_post_absent _ _ Hget). cbn [fst].
    erewrite publish_post_absent by (cbn [session record]; exact Hget).
    cbn [fst]. split; [apply same_state_record | apply notifications_record_log].
Qed.

(** X3: a job that fires after its post was deleted finds nothing to do:
    [publish_post] on the world [delete] leaves changes no store, emits
    nothing and logs that the post was not found. *)
Theorem publish_after_delete_is_noop (env : Env) (post_id : Z) (w : World) (post : Post) :
  session w !! post_id = Some post ->
  let w1 := (delete env post_id w).1 in
  let w2 := (publish_post post_id w1).1 in
  same_state w1 w2 /\ notifications w2 = notifications w1 /\
  trace w2 = trace w1 ++ [Logged WARNING (PublishNotFound post_id)].
Proof.
  intros Hget.
  destruct (delete_spec env post_id w post Hget) as (note & img & u & -> & _).
  cbn [fst].
  erewrite publish_post_absent by (cbn [session]; apply lookup_delete_eq).
  cbn [fst]. split; [apply same_state_record|].
  split; [apply notifications_record_log | reflexivity].
Qed.

Lemma publish_after_delete_is_noop_witness :
  let w1 := (delete quiet 2 world_abc).1 in
  let w2 := (publish_post 2 w1).1 in
  same_state w1 w2 /\ notifications w2 = notifications w1 /\
  trace w2 = trace w1 ++ [Logged WARNING (PublishNotFound 2)].
Proof. exact (publish_after_delete_is_noop quiet 2 world_abc post_b eq_refl). Defined.

(** ** Create *)

Lemma schedule_image_exact env req w :
  exists evs,
    schedule_image env req w =
      ({| session := session w; posts_db := posts_db w; jobs := jobs w;
          uploads := with_file (uploaded_name env req) (uploads w);
          clock := clock w; trace := trace w ++ evs |},
       inr (uploaded_name env req)) /\
    notifications_of evs = [].
Proof.
  unfold schedule_image, uploaded_name.
  destruct (files_image req) as [filename|].
  - destruct (String.eqb filename ""); cbn [negb].
    + exists []. split; [|reflexivity]. unfold ret. rewrite app_nil_r.
      destruct w; reflexivity.
    + eexists [_]. split; [unfold_M; reflexivity | reflexivity].
  - exists []. split; [|reflexivity]. unfold ret. rewrite app_nil_r.
    destruct w; reflexivity.
Qed.

Lemma schedule_exact env req w :
  method req = POST ->
  let new_id := next_id (session w) in
  let new_post := mk_Post (form_title req) (form_content req)
                    (form_platform req) (form_time req) "scheduled"
                    (uploaded_name env req) in
  exists evs,
    schedule env req w =
      ({| session := <[new_id := new_post]> (session w);
          posts_db := <[new_id := new_post]> (session w);
          jobs := registered env (form_time req) new_id (jobs w);
          uploads := with_file (uploaded_name env req) (uploads w);
          clock := clock w;
          trace := trace w ++ evs |},
       inr (Redirect "index")) /\
    notifications_of evs = [].
Proof.
  intros Hm new_id new_post. unfold schedule. rewrite Hm.
  destruct (schedule_image_exact env req w) as (evs & Himg & Hq).
  erewrite bind_inr by exact Himg.
  erewrite bind_inr by reflexivity.
  erewrite bind_inr by reflexivity.
  erewrite bind_inr by apply guarded_registration.
  unfold ret. cbn. eexists. split.
  - rewrite <- !app_assoc. reflexivity.
  - rewrite notifications_of_app, Hq.
    destruct (add_job_fails env (_job_id (next_id (session w)))); reflexivity.
Qed.

(** X4: a [GET] to [schedule] renders the form and changes nothing.  A
    [POST] whose image, if it has one, gets a file name that is not empty
    answers with the redirect; it commits exactly one new row, under an id
    that was not in use, with the submitted title, content and platform,
    the submitted wall-clock time, which read in IST is the submitted time,
    and status "scheduled"; every other row is as before; and the job store
    gains the job of the new post, at the submitted time in IST, unless the
    store rejects it, in which case it is as before. *)
Theorem schedule_creates_one_post (env : Env) (req : Request) (w : World) :
  session w = posts_db w ->
  uploaded_name env req <> Some "" ->
  match method req with
  | GET => schedule env req w = (w, inr (Render "schedule.html" []))
  | POST =>
      let new_id := next_id (posts_db w) in
      let w' := (schedule env req w).1 in
      (schedule env req w).2 = inr (Redirect "index") /\
      posts_db w !! new_id = None /\
      (exists post,
         posts_db w' !! new_id = Some post /\
         title post = form_title req /\ content post = form_content req /\
         platform post = form_platform req /\
         wall (scheduled_time post) = form_scheduled_time req /\
         normalized (scheduled_time post) = form_time req /\
         status post = "scheduled" /\
         image_filename post = uploaded_name env req) /\
      (forall i, i <> new_id -> posts_db w' !! i = posts_db w !! i) /\
      session w' = posts_db w' /\
      jobs w' =
        (if add_job_fails env (_job_id new_id) then jobs w
         else <[_job_id new_id := mk_Job (form_time req) new_id]> (jobs w))
  end.
Proof.
  intros Hclean _. destruct (method req) eqn:Hm.
  - unfold schedule. rewrite Hm. reflexivity.
  - destruct (schedule_exact env req w Hm) as (evs & -> & _).
    cbn [fst snd posts_db session jobs]. rewrite <- Hclean.
    split; [reflexivity|]. split; [apply next_id_fresh|].
    split; [eexists; split; [apply lookup_insert_eq | repeat split]|].
    split; [intros i Hi; apply lookup_insert_ne; congruence|].
    split; reflexivity.
Qed.

Lemma schedule_creates_one_post_witness :
  (exists post,
     posts_db (schedule quiet request_later world_abc).1 !! 4 = Some post /\
     title post = "C" /\ wall (scheduled_time post) = 95000000000 /\
     status post = "scheduled") /\
  jobs (schedule quiet request_later world_abc).1 =
    {[ _job_id 4 := mk_Job {| wall := 95000000000; tzinfo := Some IST |} 4 ]}.
Proof.
  assert (Hne : uploaded_name quiet request_later <> Some "") by discriminate.
  pose proof (schedule_creates_one_post quiet request_later world_abc eq_refl Hne) as H.
  cbn in H. destruct H as (_ & _ & (post & Hrow & Ht & _ & _ & Hw & _ & Hs & _) & _ & _ & Hjobs).
  split; [exists post; auto | exact Hjobs].
Defined.

(** X5: the image of a create.  With an image part whose file name is not
    empty, and is not made empty by [secure_filename], the file is saved
    under [secure_filename] of that name and the row records that name;
    with no image part, or an empty file name, the row records no image and
    the upload folder is as before.  Such a create never removes a file. *)
Theorem schedule_stores_image (env : Env) (req : Request) (w : World) :
  method req = POST ->
  uploaded_name env req <> Some "" ->
  let w' := (schedule env req w).1 in
  (exists post, session w' !! next_id (session w) = Some post /\
                image_filename post = uploaded_name env req) /\
  uploads w' = with_file (uploaded_name env req) (uploads w) /\
  uploads w ⊆ uploads w' /\
  (forall name, uploaded_name env req = Some name -> name ∈ uploads w').
Proof.
  intros Hm _. destruct (schedule_exact env req w Hm) as (evs & -> & _).
  cbn [fst uploads session].
  split; [eexists; rewrite lookup_insert_eq; split; reflexivity|].
  split; [reflexivity|].
  destruct (uploaded_name env req) as [n|]; cbn [with_file].
  - split; [set_solver|]. intros name [= <-]. set_solver.
  - split; [reflexivity|]. discriminate.
Qed.

Lemma schedule_stores_image_witness :
  uploads (schedule quiet request_image world_abc).1 = {[ "new.png" ]} ∪ {[ "b.png" ]} /\
  "new.png" ∈ uploads (schedule quiet request_image world_abc).1.
Proof.
  assert (Hne : uploaded_name quiet request_image <> Some "") by discriminate.
  destruct (schedule_stores_image quiet request_image world_abc eq_refl Hne)
    as (_ & Hu & _ & Hin).
  split; [exact Hu | exact (Hin "new.png" eq_refl)].
Defined.

(** ** Edit *)

Lemma edit_image_exact env post_id post req w :
  edit_image env post_id post req w =
    match uploaded_name env req with
    | None => (w, inr tt)
    | Some n =>
        match stale_image post w with
        | Some old =>
            if os_remove_fails env old
            then (record (CallOsRemove old) w, inl (OSError old))
            else ({| session := alter (set_image_filename (Some n)) post_id (session w);
                     posts_db := posts_db w; jobs := jobs w;
                     uploads := {[ n ]} ∪ (uploads w ∖ {[ old ]});
                     clock := clock w;
                     trace := trace w ++ [CallOsRemove old; CallSave n] |}, inr tt)
        | None =>
            ({| session := alter (set_image_filename (Some n)) post_id (session w);
                posts_db := posts_db w; jobs := jobs w;
                uploads := {[ n ]} ∪ uploads w; clock := clock w;
                trace := trace w ++ [CallSave n] |}, inr tt)
        end
    end.
Proof.
  unfold edit_image, uploaded_name, stale_image.
  destruct (files_image req) as [filename|]; [|reflexivity].
  destruct (String.eqb filename ""); cbn [negb]; [reflexivity|].
  destruct (truthy (image_filename post)) as [old|].
  - unfold bind at 1. unfold bind at 1. unfold os_path_exists at 1.
    destruct (bool_decide (old ∈ uploads w)).
    + unfold os_remove. destruct (os_remove_fails env old); [reflexivity|].
      unfold_M. unfold record. cbn. rewrite <- app_assoc. reflexivity.
    + unfold_M. reflexivity.
  - unfold_M. reflexivity.
Qed.

(** A [POST] to [edit] for an existing post, in full. *)
Lemma edit_exact env post_id req w post :
  session w !! post_id = Some post -> method req = POST ->
  let e := edit_fields req post in
  edit env post_id req w =
    match uploaded_name env req with
    | None => (edit_committed env post_id req w e (uploads w) [], inr (Redirect "index"))
    | Some n =>
        match stale_image post w with
        | Some old =>
            if os_remove_fails env old
            then ({| session := <[post_id := e]> (session w);
                     posts_db := posts_db w; jobs := jobs w;
                     uploads := uploads w; clock := clock w;
                     trace := trace w ++ [CallOsRemove old] |}, inl (OSError old))
            else (edit_committed env post_id req w
                    (set_image_filename (Some n) e)
                    ({[ n ]} ∪ (uploads w ∖ {[ old ]}))
                    [CallOsRemove old; CallSave n], inr (Redirect "index"))
        | None =>
            (edit_committed env post_id req w (set_image_filename (Some n) e)
               ({[ n ]} ∪ uploads w) [CallSave n], inr (Redirect "index"))
        end
    end.
Proof.
  intros Hget Hm e. unfold edit.
  erewrite bind_inr by (apply query_get_or_404_found; exact Hget).
  rewrite Hm. erewrite bind_inr by reflexivity.
  assert (Hupd : forall f,
             alter f post_id (alter (edit_fields req) post_id (session w))
             = <[post_id := f e]> (session w)).
  { intros f. rewrite (alter_present _ _ _ _ Hget).
    erewrite alter_present by apply lookup_insert_eq. apply insert_insert_eq. }
  pose proof (edit_image_exact env post_id post req
                (with_session (alter (edit_fields req) post_id (session w)) w)) as Himg.
  unfold stale_image in *. cbn [uploads with_session] in Himg.
  destruct (uploaded_name env req) as [n|].
  - destruct (truthy (image_filename post)) as [old|].
    + destruct (bool_decide (old ∈ uploads w)).
      * destruct (os_remove_fails env old).
        -- erewrite bind_inl by exact Himg. cbn.
           rewrite (alter_present _ _ _ _ Hget). reflexivity.
        -- erewrite bind_inr by exact Himg.
           erewrite bind_inr by reflexivity.
           erewrite bind_inr by apply guarded_registration.
           unfold ret, edit_committed, form_time. cbn. rewrite Hupd.
           rewrite <- !app_assoc. reflexivity.
      * erewrite bind_inr by exact Himg.
        erewrite bind_inr by reflexivity.
        erewrite bind_inr by apply guarded_registration.
        unfold ret, edit_committed, form_time. cbn. rewrite Hupd.
        rewrite <- !app_assoc. reflexivity.
    + erewrite bind_inr by exact Himg.
      erewrite bind_inr by reflexivity.
      erewrite bind_inr by apply guarded_registration.
      unfold ret, edit_committed, form_time. cbn. rewrite Hupd.
      rewrite <- !app_assoc. reflexivity.
  - erewrite bind_inr by exact Himg.
    erewrite bind_inr by reflexivity.
    erewrite bind_inr by apply guarded_registration.
    unfold ret, edit_committed, form_time. cbn.
    rewrite (alter_present _ _ _ _ Hget), <- !app_assoc. reflexivity.
Qed.

(** X6: a [POST] to [edit] for an existing post touches no other row.  When
    it answers with the redirect, the committed row has the submitted title,
    content and platform, the submitted time read in IST, the status it had
    before, and the image name of the upload if there is one, else the one
    it had.  When it raises, the committed table is as before. *)
Theorem edit_changes_only_its_post (env : Env) (post_id : Z) (req : Request)
    (w : World) (post : Post) :
  session w = posts_db w ->
  posts_db w !! post_id = Some post -> method req = POST ->
  let w' := (edit env post_id req w).1 in
  (forall i, i <> post_id -> posts_db w' !! i = posts_db w !! i) /\
  ((edit env post_id req w).2 = inr (Redirect "index") ->
   posts_db w' !! post_id =
     Some (mk_Post (form_title req) (form_content req) (form_platform req)
             {| wall := form_scheduled_time req; tzinfo := Some IST |}
             (status post)
             (match uploaded_name env req with
              | Some n => Some n
              | None => image_filename post
              end))) /\
  (forall e, (edit env post_id req w).2 = inl e -> posts_db w' = posts_db w).
Proof.
  intros Hclean Hget Hm. rewrite <- Hclean in Hget.
  rewrite (edit_exact env post_id req w post Hget Hm).
  destruct (uploaded_name env req) as [n|].
  - destruct (stale_image post w) as [old|].
    + destruct (os_remove_fails env old); cbn.
      * split; [reflexivity|]. split; [discriminate | reflexivity].
      * rewrite <- Hclean.
        split; [intros i Hi; apply lookup_insert_ne; congruence|].
        split; [intros _; apply lookup_insert_eq | discriminate].
    + cbn. rewrite <- Hclean.
      split; [intros i Hi; apply lookup_insert_ne; congruence|].
      split; [intros _; apply lookup_insert_eq | discriminate].
  - cbn. rewrite <- Hclean.
    split; [intros i Hi; apply lookup_insert_ne; congruence|].
    split; [intros _; apply lookup_insert_eq | discriminate].
Qed.

Lemma edit_changes_only_its_post_witness :
  posts_db (edit quiet 2 request_image world_abc).1 !! 2 =
    Some (mk_Post "B2" "second" "linkedin"
            {| wall := 95000000000; tzinfo := Some IST |} "scheduled"
            (Some "new.png")) /\
  posts_db (edit quiet 2 request_image world_abc).1 !! 1 = Some post_a.
Proof.
  destruct (edit_changes_only_its_post quiet 2 request_image world_abc post_b
              eq_refl eq_refl eq_refl) as (Hframe & Hrow & _).
  split; [exact (Hrow eq_refl)|].
  rewrite (Hframe 1) by discriminate. reflexivity.
Defined.

(** X7: the removal of the old image in [edit] is not guarded.  When a new
    image is uploaded, the post's old file is in the folder and [os.remove]
    fails, [edit] raises that error to the requester: nothing is committed,
    the scheduler is not called, the upload folder is as before, and the
    field changes stay in the session until the request is torn down. *)
Theorem edit_image_failure_propagates (env : Env) (post_id : Z) (req : Request)
    (w : World) (post : Post) (n old : string) :
  session w !! post_id = Some post -> method req = POST ->
  uploaded_name env req = Some n ->
  stale_image post w = Some old ->
  os_remove_fails env old = true ->
  (edit env post_id req w).2 = inl (OSError old) /\
  let w' := (edit env post_id req w).1 in
  posts_db w' = posts_db w /\ jobs w' = jobs w /\ uploads w' = uploads w /\
  trace w' = trace w ++ [CallOsRemove old] /\
  session w' !! post_id = Some (edit_fields req post) /\
  session (step env (Edit post_id req) w) = posts_db w.
Proof.
  intros Hget Hm Hn Hold Hfail. cbn [step].
  rewrite (edit_exact env post_id req w post Hget Hm), Hn, Hold, Hfail. cbn.
  repeat split. apply lookup_insert_eq.
Qed.

Lemma edit_image_failure_propagates_witness :
  (edit readonly 2 request_image world_abc).2 = inl (OSError "b.png") /\
  posts_db (edit readonly 2 request_image world_abc).1 = table_abc /\
  jobs (edit readonly 2 request_image world_abc).1 = ∅.
Proof.
  destruct (edit_image_failure_propagates readonly 2 request_image world_abc
              post_b "new.png" "b.png" eq_refl eq_refl eq_refl eq_refl eq_refl)
    as (Hr & Hdb & Hj & _).
  split; [exact Hr|]. split; [exact Hdb | exact Hj].
Defined.

(** X8: the upload folder after an [edit] that answers with the redirect.
    Without an upload the folder is as before.  With one, the new file is in
    the folder and the post's old file, if it was there and has another
    name, is gone; no other file is touched. *)
Theorem edit_replaces_image (env : Env) (post_id : Z) (req : Request)
    (w : World) (post : Post) :
  session w !! post_id = Some post -> method req = POST ->
  (edit env post_id req w).2 = inr (Redirect "index") ->
  let w' := (edit env post_id req w).1 in
  match uploaded_name env req with
  | None => uploads w' = uploads w
  | Some n =>
      n ∈ uploads w' /\
      (forall old, stale_image post w = Some old -> old <> n -> old ∉ uploads w') /\
      (forall f, f <> n -> stale_image post w <> Some f ->
                 (f ∈ uploads w' <-> f ∈ uploads w))
  end.
Proof.
  intros Hget Hm. rewrite (edit_exact env post_id req w post Hget Hm).
  destruct (uploaded_name env req) as [n|].
  - destruct (stale_image post w) as [old|].
    + destruct (os_remove_fails env old); cbn; [discriminate|]. intros _.
      split; [apply elem_of_union; left; apply elem_of_singleton; reflexivity|].
      split.
      * intros old' [= <-] Hne.
        rewrite elem_of_union, elem_of_difference, !elem_of_singleton. tauto.
      * intros f Hf Hold. assert (f <> old) by congruence.
        rewrite elem_of_union, elem_of_difference, !elem_of_singleton. tauto.
    + cbn. intros _.
      split; [apply elem_of_union; left; apply elem_of_singleton; reflexivity|].
      split; [discriminate|].
      intros f Hf _. rewrite elem_of_union, elem_of_singleton. tauto.
  - cbn. intros _. reflexivity.
Qed.

Lemma edit_replaces_image_witness :
  "new.png" ∈ uploads (edit quiet 2 request_image world_abc).1 /\
  "b.png" ∉ uploads (edit quiet 2 request_image world_abc).1.
Proof.
  pose proof (edit_replaces_image quiet 2 request_image world_abc post_b
                eq_refl eq_refl eq_refl) as H.
  cbn in H. destruct H as (Hin & Hold & _).
  split; [exact Hin|]. apply (Hold "b.png" eq_refl). discriminate.
Defined.

(** A [GET], and any request for an id no post has, goes through [edit]
    without a change. *)
Lemma edit_reads env post_id req w :
  match session w !! post_id with
  | None => edit env post_id req w = (w, inl NotFound404)
  | Some post =>
      method req = GET ->
      edit env post_id req w = (w, inr (Render "edit.html" [(post_id, post)]))
  end.
Proof.
  destruct (session w !! post_id) as [post|] eqn:Hget.
  - intros Hm. unfold edit.
    erewrite bind_inr by (apply query_get_or_404_found; exact Hget).
    rewrite Hm. reflexivity.
  - unfold edit.
    erewrite bind_inl by (apply query_get_or_404_missing; exact Hget).
    reflexivity.
Qed.

(** X9: [edit] only reads on a [GET] and on a missing post.  For an id no
    post has, taken from the range of the integer primary key, it answers
    404 whatever the method; on a [GET] for an existing post it renders the
    form with the post as it is.  In both cases nothing changes, not even
    the trace. *)
Theorem edit_reads_only (env : Env) (post_id : Z) (req : Request) (w : World) :
  match session w !! post_id with
  | None =>
      - 2 ^ 63 <= post_id < 2 ^ 63 ->
      edit env post_id req w = (w, inl NotFound404)
  | Some post =>
      method req = GET ->
      edit env post_id req w = (w, inr (Render "edit.html" [(post_id, post)]))
  end.
Proof.
  pose proof (edit_reads env post_id req w) as H.
  destruct (session w !! post_id) as [post|]; [exact H | intros _; exact H].
Qed.

Lemma edit_reads_only_witness :
  edit quiet 7 request_post world_abc = (world_abc, inl NotFound404) /\
  edit quiet 1 (mk_Request GET "" "" "" 0 None) world_abc =
    (world_abc, inr (Render "edit.html" [(1, post_a)])).
Proof.
  split.
  - assert (Hrange : - 2 ^ 63 <= 7 < 2 ^ 63) by lia.
    exact (edit_reads_only quiet 7 request_post world_abc Hrange).
  - exact (edit_reads_only quiet 1 (mk_Request GET "" "" "" 0 None) world_abc eq_refl).
Defined.

(** ** Delete *)

Lemma delete_image_exact env post w :
  delete_image env post w =
    match stale_image post w with
    | Some old =>
        if os_remove_fails env old
        then ({| session := session w; posts_db := posts_db w; jobs := jobs w;
                 uploads := uploads w; clock := clock w;
                 trace := trace w ++ [CallOsRemove old;
                                      Logged ERROR (DeleteImageFailed old)] |}, inr tt)
        else ({| session := session w; posts_db := posts_db w; jobs := jobs w;
                 uploads := uploads w ∖ {[ old ]}; clock := clock w;
                 trace := trace w ++ [CallOsRemove old] |}, inr tt)
    | None => (w, inr tt)
    end.
Proof.
  unfold delete_image, stale_image.
  destruct (truthy (image_filename post)) as [old|]; [|reflexivity].
  unfold_M. unfold os_remove.
  destruct (bool_decide (old ∈ uploads w)); [|reflexivity].
  destruct (os_remove_fails env old); [|reflexivity].
  unfold record. cbn. rewrite <- app_assoc. reflexivity.
Qed.

Lemma cancel_exact post_id w :
  try_except
    (scheduler_remove_job (_job_id post_id) >>
     logging INFO (DeleteRemoved post_id))
    (fun _ => logging WARNING (DeleteJobNotFound post_id)) w =
  ({| session := session w; posts_db := posts_db w;
      jobs := base.delete (_job_id post_id) (jobs w);
      uploads := uploads w; clock := clock w;
      trace := trace w ++
        [CallRemoveJob (_job_id post_id);
         match jobs w !! _job_id post_id with
         | Some _ => Logged INFO (DeleteRemoved post_id)
         | None => Logged WARNING (DeleteJobNotFound post_id)
         end] |}, inr tt).
Proof.
  unfold try_except, bind, scheduler_remove_job, logging, effect.
  destruct (jobs w !! _job_id post_id) eqn:Hjob;
    unfold record, with_jobs; cbn.
  - rewrite <- app_assoc. reflexivity.
  - rewrite <- app_assoc, (delete_id (jobs w)) by exact Hjob. reflexivity.
Qed.

Lemma returns_pair {A} (m : M A) w a :
  (m w).2 = inr a -> m w = ((m w).1, inr a).
Proof. destruct (m w) as [w' r]. cbn. intros ->. reflexivity. Qed.

Lemma delete_image_returns env post w : (delete_image env post w).2 = inr tt.
Proof.
  rewrite delete_image_exact.
  destruct (stale_image post w) as [old|]; [|reflexivity].
  destruct (os_remove_fails env old); reflexivity.
Qed.

(** [delete] on an existing post, in full. *)
Lemma delete_exact env post_id w post :
  session w !! post_id = Some post ->
  delete env post_id w =
    ({| session := base.delete post_id (session w);
        posts_db := base.delete post_id (session w);
        jobs := base.delete (_job_id post_id) (jobs w);
        uploads := match stale_image post w with
                   | Some old => if os_remove_fails env old then uploads w
                                 else uploads w ∖ {[ old ]}
                   | None => uploads w
                   end;
        clock := clock w;
        trace := trace w ++
          [CallRemoveJob (_job_id post_id);
           match jobs w !! _job_id post_id with
           | Some _ => Logged INFO (DeleteRemoved post_id)
           | None => Logged WARNING (DeleteJobNotFound post_id)
           end] ++
          match stale_image post w with
          | Some old => if os_remove_fails env old
                        then [CallOsRemove old; Logged ERROR (DeleteImageFailed old)]
                        else [CallOsRemove old]
          | None => []
          end ++ [SessionDelete post_id; Commit] |},
     inr (Redirect "index")).
Proof.
  intros Hget. unfold delete.
  erewrite bind_inr by (apply query_get_or_404_found; exact Hget).
  erewrite bind_inr by apply cancel_exact.
  erewrite bind_inr by apply returns_pair, delete_image_returns.
  erewrite bind_inr by reflexivity.
  erewrite bind_inr by reflexivity.
  unfold ret. rewrite delete_image_exact. unfold stale_image. cbn [uploads].
  destruct (truthy (image_filename post)) as [old|].
  - destruct (bool_decide (old ∈ uploads w)).
    + destruct (os_remove_fails env old);
        unfold record, with_posts_db, with_session; cbn;
        rewrite <- !app_assoc; reflexivity.
    + unfold record, with_posts_db, with_session. cbn.
      rewrite <- !app_assoc. reflexivity.
  - unfold record, with_posts_db, with_session. cbn.
    rewrite <- !app_assoc. reflexivity.
Qed.

(** X10: [delete] on an existing post never raises, whatever the scheduler
    and the file system answer.  It answers with the redirect; the row is
    gone and every other row is as before; no job is left under the post's
    job id and every other job is as before; the post's image file, when it
    was in the folder, is removed, or, when [os.remove] fails, left in place
    with the failure logged; no other file is touched. *)
Theorem delete_removes_post_job_and_file (env : Env) (post_id : Z) (w : World) (post : Post) :
  session w = posts_db w -> posts_db w !! post_id = Some post ->
  (delete env post_id w).2 = inr (Redirect "index") /\
  let w' := (delete env post_id w).1 in
  posts_db w' !! post_id = None /\
  (forall i, i <> post_id -> posts_db w' !! i = posts_db w !! i) /\
  session w' = posts_db w' /\
  jobs w' !! _job_id post_id = None /\
  (forall k, k <> _job_id post_id -> jobs w' !! k = jobs w !! k) /\
  match stale_image post w with
  | Some old =>
      if os_remove_fails env old
      then uploads w' = uploads w /\
           In (Logged ERROR (DeleteImageFailed old)) (trace w')
      else uploads w' = uploads w ∖ {[ old ]}
  | None => uploads w' = uploads w
  end.
Proof.
  intros Hclean Hget. rewrite <- Hclean in Hget.
  rewrite (delete_exact env post_id w post Hget). cbn [fst snd].
  cbn [posts_db session jobs uploads trace]. rewrite <- Hclean.
  split; [reflexivity|]. split; [apply lookup_delete_eq|].
  split; [intros i Hi; apply lookup_delete_ne; congruence|].
  split; [reflexivity|]. split; [apply lookup_delete_eq|].
  split; [intros k Hk; apply lookup_delete_ne; congruence|].
  destruct (stale_image post w) as [old|]; [|reflexivity].
  destruct (os_remove_fails env old); [|reflexivity].
  split; [reflexivity|]. rewrite !in_app_iff. cbn. tauto.
Qed.

Lemma delete_removes_post_job_and_file_witness :
  (delete readonly 2 world_abc).2 = inr (Redirect "index") /\
  posts_db (delete readonly 2 world_abc).1 !! 2 = None /\
  uploads (delete readonly 2 world_abc).1 = {[ "b.png" ]} /\
  uploads (delete quiet 2 world_abc).1 = {[ "b.png" ]} ∖ {[ "b.png" ]}.
Proof.
  pose proof (delete_removes_post_job_and_file readonly 2 world_abc post_b
                eq_refl eq_refl) as (Hr & Hdb & _ & _ & _ & _ & Hu).
  pose proof (delete_removes_post_job_and_file quiet 2 world_abc post_b
                eq_refl eq_refl) as (_ & _ & _ & _ & _ & _ & Hq).
  cbn in Hu, Hq.
  split; [exact Hr|]. split; [exact Hdb|]. split; [exact (proj1 Hu) | exact Hq].
Defined.

(** ** What the routes never do *)

Ltac notifications_of_trace :=
  unfold notifications; cbn [fst trace]; rewrite ?notifications_of_app;
  cbn [notifications_of flat_map app]; rewrite ?app_nil_r.

(** X11: only the Publish Handler notifies.  Whatever the request, the
    environment and the state, [index], [schedule], [edit] and [delete] emit
    no notification. *)
Theorem routes_emit_nothing (env : Env) (post_id : Z) (req : Request) (w : World) :
  notifications (index w).1 = notifications w /\
  notifications (schedule env req w).1 = notifications w /\
  notifications (edit env post_id req w).1 = notifications w /\
  notifications (delete env post_id w).1 = notifications w.
Proof.
  split; [reflexivity|]. split; [|split].
  - destruct (method req) eqn:Hm.
    + unfold schedule. rewrite Hm. reflexivity.
    + destruct (schedule_exact env req w Hm) as (evs & -> & Hq).
      unfold notifications. cbn [fst trace].
      rewrite notifications_of_app, Hq. apply app_nil_r.
  - pose proof (edit_reads env post_id req w) as Hread.
    destruct (session w !! post_id) as [post|] eqn:Hget.
    + destruct (method req) eqn:Hm; [rewrite (Hread eq_refl); reflexivity|].
      rewrite (edit_exact env post_id req w post Hget Hm).
      unfold edit_committed.
      destruct (uploaded_name env req) as [n|];
        [destruct (stale_image post w) as [old|];
           [destruct (os_remove_fails env old)|]|];
        destruct (add_job_fails env (_job_id post_id));
        notifications_of_trace; reflexivity.
    + rewrite Hread. reflexivity.
  - destruct (session w !! post_id) as [post|] eqn:Hget.
    + rewrite (delete_exact env post_id w post Hget).
      destruct (jobs w !! _job_id post_id);
        (destruct (stale_image post w) as [old|];
           [destruct (os_remove_fails env old)|]);
        notifications_of_trace; reflexivity.
    + unfold delete.
      erewrite bind_inl by (apply query_get_or_404_missing; exact Hget).
      reflexivity.
Qed.

(** X12: posts come only from [schedule] and go only with [delete]: the
    reconciliation, [index], [edit] and [publish_post] leave the committed
    table with exactly the ids it had, whatever their input. *)
Theorem ids_kept_outside_create_and_delete (env : Env) (post_id : Z) (req : Request) (w : World) :
  session w = posts_db w ->
  same_ids w (startup env w).1 /\
  same_ids w (index w).1 /\
  same_ids w (edit env post_id req w).1 /\
  same_ids w (publish_post post_id w).1.
Proof.
  intros Hclean. split; [|split; [|split]].
  - destruct (startup_rows env w Hclean)
      as (w' & r & -> & _ & _ & _ & Hcl & Hrow & Hnone & _).
    intros i. cbn [fst]. rewrite <- Hcl, <- Hclean.
    destruct (session w !! i) as [p|] eqn:Hget.
    + destruct (Hrow i p Hget) as [->|(_ & _ & ->)]; split; eauto.
    + rewrite (Hnone i Hget). reflexivity.
  - intros i. reflexivity.
  - pose proof (edit_reads env post_id req w) as Hread.
    destruct (session w !! post_id) as [post|] eqn:Hget.
    + destruct (method req) eqn:Hm; [rewrite (Hread eq_refl); intros i; reflexivity|].
      rewrite (edit_exact env post_id req w post Hget Hm).
      assert (Hins : forall p i, is_Some (<[post_id := p]> (session w) !! i)
                                 <-> is_Some (posts_db w !! i)).
      { intros p i. rewrite <- Hclean.
        destruct (decide (post_id = i)) as [<-|Hne].
        - rewrite lookup_insert_eq, Hget. split; eauto.
        - rewrite lookup_insert_ne by exact Hne. reflexivity. }
      destruct (uploaded_name env req) as [n|];
        [destruct (stale_image post w) as [old|];
           [destruct (os_remove_fails env old)|]|];
        intros i; cbn [fst posts_db edit_committed];
        try apply Hins; reflexivity.
    + rewrite Hread. intros i. reflexivity.
  - destruct (session w !! post_id) as [post|] eqn:Hget.
    + destruct (decide (status post = "scheduled")) as [Hs|Hs].
      * rewrite (publish_post_marks _ _ _ Hget Hs). intros i. cbn [fst posts_db].
        rewrite <- Hclean. destruct (decide (post_id = i)) as [<-|Hne].
        -- rewrite lookup_insert_eq, Hget. split; eauto.
        -- rewrite lookup_insert_ne by exact Hne. reflexivity.
      * rewrite (publish_post_skip _ _ _ Hget Hs). intros i. reflexivity.
    + rewrite (publish_post_absent _ _ Hget). intros i. reflexivity.
Qed.

Lemma ids_kept_outside_create_and_delete_witness :
  same_ids world_abc (startup quiet world_abc).1 /\
  same_ids world_abc (edit quiet 2 request_image world_abc).1.
Proof.
  destruct (ids_kept_outside_create_and_delete quiet 2 request_image world_abc eq_refl)
    as (Hs & _ & He & _).
  split; [exact Hs | exact He].
Defined.

(** X13: a create followed by the delete of the new post is a round trip on
    the tables: the committed posts are as before the create, and so is the
    job store, up to an entry that was already stored under the new post's
    job id, which the delete cancels.  This holds whether or not either
    registration or cancellation succeeded. *)
Theorem create_then_delete_restores (env env' : Env) (req : Request) (w : World) :
  session w = posts_db w -> method req = POST ->
  let new_id := next_id (posts_db w) in
  let w1 := step env (Schedule req) w in
  let w2 := step env' (Delete new_id) w1 in
  posts_db w2 = posts_db w /\
  jobs w2 = base.delete (_job_id new_id) (jobs w) /\
  (jobs w !! _job_id new_id = None -> jobs w2 = jobs w).
Proof.
  intros Hclean Hm new_id w1 w2. subst new_id w2. rewrite <- Hclean.
  destruct (schedule_exact env req w Hm) as (evs & Hs & _).
  set (np := mk_Post (form_title req) (form_content req) (form_platform req)
               (form_time req) "scheduled" (uploaded_name env req)) in *.
  assert (Hw1 : w1 =
            {| session := <[next_id (session w) := np]> (session w);
               posts_db := <[next_id (session w) := np]> (session w);
               jobs := registered env (form_time req) (next_id (session w)) (jobs w);
               uploads := with_file (uploaded_name env req) (uploads w);
               clock := clock w; trace := trace w ++ evs |}).
  { subst w1. cbn [step]. rewrite Hs. reflexivity. }
  assert (Hget : session w1 !! next_id (session w) = Some np).
  { rewrite Hw1. apply lookup_insert_eq. }
  cbn [step].
  rewrite (delete_exact env' _ w1 np Hget).
  cbn [fst teardown posts_db session jobs with_session]. rewrite Hw1.
  cbn [session jobs].
  assert (Hj : base.delete (_job_id (next_id (session w)))
                 (registered env (form_time req) (next_id (session w)) (jobs w))
               = base.delete (_job_id (next_id (session w))) (jobs w)).
  { unfold registered.
    destruct (add_job_fails env (_job_id (next_id (session w)))); [reflexivity|].
    apply delete_insert_eq. }
  split; [|split].
  - apply delete_insert_id, next_id_fresh.
  - exact Hj.
  - intros Hnone. rewrite Hj. apply delete_id. exact Hnone.
Qed.

Lemma create_then_delete_restores_witness :
  let w1 := step rejecting (Schedule request_image) world_registered in
  let w2 := step readonly (Delete 4) w1 in
  posts_db w2 = posts_db world_registered /\ jobs w2 = jobs world_registered.
Proof.
  destruct (create_then_delete_restores rejecting readonly request_image
              world_registered eq_refl eq_refl) as (Hdb & _ & Hj).
  split; [exact Hdb | exact (Hj eq_refl)].
Defined.

(** ** The reconciliation, composed *)

(** A post that is still "scheduled" after a reconciliation that found
    the timer thread idle was there before, unchanged, and is not overdue. *)
Lemma startup_leaves_future_posts env w i p1 :
  session w = posts_db w -> timer_idle w ->
  session (startup env w).1 !! i = Some p1 -> status p1 = "scheduled" ->
  session w !! i = Some p1 /\ overdue p1 (clock w) = false.
Proof.
  intros Hclean Hidle Hget1 Hs1.
  destruct (startup_spec env w Hclean Hidle)
    as (w' & Heq & _ & _ & _ & Hrow & Hnone & _).
  rewrite Heq in Hget1. cbn [fst] in Hget1.
  destruct (session w !! i) as [p|] eqn:Hget.
  2:{ rewrite (Hnone i Hget) in Hget1. discriminate. }
  rewrite (Hrow i p Hget) in Hget1. injection Hget1 as Hp.
  destruct (decide (status p = "scheduled")) as [Hs|Hs].
  - rewrite bool_decide_eq_true_2 in Hp by exact Hs. cbn [andb] in Hp.
    destruct (overdue p (clock w)) eqn:Hov; subst p1.
    + cbn in Hs1. discriminate.
    + auto.
  - rewrite bool_decide_eq_false_2 in Hp by exact Hs. cbn [andb] in Hp.
    subst p1. contradiction.
Qed.

(** X14: the reconciliation is idempotent while no stored job is due.  After
    a first run that found no due job in the store there is still none; run
    again right after, whatever the job store does the second time, the
    routine returns and publishes nothing: the committed table and the
    notifications are as the first run left them.  Against the same job
    store the second run also leaves the job store as the first run left
    it. *)
Theorem startup_idempotent (env env' : Env) (w : World) :
  session w = posts_db w -> timer_idle w ->
  let w1 := (startup env w).1 in
  timer_idle w1 /\
  (startup env' w1).2 = inr tt /\
  posts_db (startup env' w1).1 = posts_db w1 /\
  notifications (startup env' w1).1 = notifications w1 /\
  jobs (startup env w1).1 = jobs w1.
Proof.
  intros Hclean Hidle w1.
  destruct (startup_spec env w Hclean Hidle)
    as (w1' & Heq1 & Hc1 & _ & Hcl1 & _ & _ & Hjin1 & _ & _ & _ & _ & Hidle1).
  assert (Hw1 : w1 = w1') by (subst w1; rewrite Heq1; reflexivity).
  assert (Hfut : forall i p1, session w1 !! i = Some p1 -> status p1 = "scheduled" ->
                   session w !! i = Some p1 /\ overdue p1 (clock w1) = false).
  { intros i p1 Hg Hs. rewrite Hw1, Hc1. rewrite Hw1 in Hg.
    apply (startup_leaves_future_posts env w i p1 Hclean Hidle); [|exact Hs].
    rewrite Heq1. exact Hg. }
  assert (Hclean1 : session w1 = posts_db w1) by (rewrite Hw1; exact Hcl1).
  assert (Hidle1' : timer_idle w1) by (rewrite Hw1; exact Hidle1).
  assert (Hrun : forall e, exists w2,
            startup e w1 = (w2, inr tt) /\ posts_db w2 = posts_db w1 /\
            notifications w2 = notifications w1 /\
            (e = env -> jobs w2 = jobs w1)).
  { intros e.
    destruct (startup_spec e w1 Hclean1 Hidle1')
      as (w2 & Heq2 & _ & _ & Hcl2 & Hrow2 & Hnone2 & Hjin2 & Hjout2 & Hn2 & _).
    exists w2. split; [exact Heq2|]. split; [|split].
    - rewrite <- Hcl2, <- Hclean1. apply map_eq. intros i.
      destruct (session w1 !! i) as [p1|] eqn:Hg; [|apply Hnone2; exact Hg].
      rewrite (Hrow2 i p1 Hg).
      destruct (decide (status p1 = "scheduled")) as [Hs|Hs].
      + destruct (Hfut i p1 Hg Hs) as [_ ->]. rewrite andb_false_r. reflexivity.
      + rewrite bool_decide_eq_false_2 by exact Hs. reflexivity.
    - rewrite Hn2.
      rewrite (elem_of_nil_inv
                 (filter (fun r : Z * Post => overdue r.2 (clock w1))
                    (filter (fun r : Z * Post => String.eqb (status r.2) "scheduled")
                       (rows_by_id (session w1))))).
      + apply app_nil_r.
      + intros [i p1] Hin. apply list_elem_of_filter in Hin as [Hov Hin].
        apply scheduled_rows in Hin as [Hg Hs]. cbn [snd] in Hov.
        destruct (Hfut i p1 Hg Hs) as [_ Hno]. rewrite Hno in Hov. exact Hov.
    - intros ->. apply map_eq. intros k.
      destruct (decide (Exists (fun r : Z * Post =>
                  k = _job_id r.1 /\ status r.2 = "scheduled")
                  (map_to_list (session w1)))) as [Hex|Hnex].
      + apply Exists_exists in Hex as ([i p1] & Hin & -> & Hs). cbn [fst snd] in *.
        apply elem_of_map_to_list in Hin.
        destruct (Hfut i p1 Hin Hs) as [Hg Hno].
        rewrite (Hjin2 i p1 Hin Hs Hno), registered_lookup_eq.
        destruct (add_job_fails env (_job_id i)) eqn:Hfail; [reflexivity|].
        rewrite Hw1, Hc1 in Hno. rewrite Hw1.
        rewrite (Hjin1 i p1 Hg Hs Hno), registered_lookup_eq, Hfail. reflexivity.
      + apply Hjout2. intros i p1 Hg Hs _ ->. apply Hnex.
        apply Exists_exists. exists (i, p1).
        split; [apply elem_of_map_to_list; exact Hg | auto]. }
  split; [exact Hidle1'|].
  destruct (Hrun env') as (w2 & -> & Hdb & Hn & _).
  destruct (Hrun env) as (w3 & -> & _ & _ & Hj).
  cbn [fst snd]. auto.
Qed.

Lemma startup_idempotent_witness :
  let w1 := (startup quiet world_abc).1 in
  timer_idle w1 /\
  (startup rejecting w1).2 = inr tt /\
  posts_db (startup rejecting w1).1 = posts_db w1 /\
  notifications (startup rejecting w1).1 = notifications w1 /\
  jobs (startup quiet w1).1 = jobs w1.
Proof.
  exact (startup_idempotent quiet rejecting world_abc eq_refl world_abc_idle).
Defined.

(** X15: the reconciliation repairs a rejected registration.  Take a create
    that stores its image, if any, under a name that is not empty, and whose
    registration the job store rejected: the post is committed "scheduled",
    with the submitted wall-clock time, and has gained no job.  If the
    process then starts again while no stored job is due, with a job store
    that accepts the job id, the reconciliation commits the post with status
    "posted" and its other columns unchanged if its time has come, and
    otherwise keeps it and registers its job at the submitted time in
    IST. *)
Theorem startup_recovers_rejected_registration (env env' : Env) (req : Request) (w : World) :
  session w = posts_db w -> method req = POST ->
  uploaded_name env req <> Some "" -> timer_idle w ->
  let new_id := next_id (posts_db w) in
  add_job_fails env (_job_id new_id) = true ->
  add_job_fails env' (_job_id new_id) = false ->
  let w1 := step env (Schedule req) w in
  let w2 := step env' Startup w1 in
  jobs w1 = jobs w /\
  exists post,
    posts_db w1 !! new_id = Some post /\ status post = "scheduled" /\
    wall (scheduled_time post) = form_scheduled_time req /\
    normalized (scheduled_time post) = form_time req /\
    if overdue post (clock w)
    then exists post', posts_db w2 !! new_id = Some post' /\
                       marked_posted post post'
    else posts_db w2 !! new_id = Some post /\
         jobs w2 !! _job_id new_id = Some (mk_Job (form_time req) new_id).
Proof.
  intros Hclean Hm _ Hidle new_id Hrej Hacc w1 w2. subst new_id.
  rewrite <- Hclean in *.
  destruct (schedule_exact env req w Hm) as (evs & Hs & _).
  set (np := mk_Post (form_title req) (form_content req) (form_platform req)
               (form_time req) "scheduled" (uploaded_name env req)) in *.
  assert (Hw1 : w1 =
            {| session := <[next_id (session w) := np]> (session w);
               posts_db := <[next_id (session w) := np]> (session w);
               jobs := jobs w;
               uploads := with_file (uploaded_name env req) (uploads w);
               clock := clock w; trace := trace w ++ evs |}).
  { subst w1. cbn [step]. rewrite Hs. unfold registered. rewrite Hrej. reflexivity. }
  assert (Hclean1 : session w1 = posts_db w1) by (rewrite Hw1; reflexivity).
  assert (Hidle1 : timer_idle w1) by (rewrite Hw1; exact Hidle).
  assert (Hget : session w1 !! next_id (session w) = Some np).
  { rewrite Hw1. apply lookup_insert_eq. }
  assert (Hclock : clock w1 = clock w) by (rewrite Hw1; reflexivity).
  split; [rewrite Hw1; reflexivity|].
  exists np. split; [rewrite <- Hclean1; exact Hget|].
  split; [reflexivity|]. split; [reflexivity|]. split; [reflexivity|].
  subst w2. cbn [step].
  destruct (startup_spec env' w1 Hclean1 Hidle1)
    as (w2 & -> & _ & _ & Hcl2 & Hrow2 & _ & Hjin2 & _).
  cbn [fst teardown posts_db jobs with_session]. rewrite <- Hcl2.
  rewrite (Hrow2 _ np Hget), Hclock. cbn [andb status np bool_decide].
  rewrite bool_decide_eq_true_2 by reflexivity. cbn [andb].
  destruct (overdue np (clock w)) eqn:Hov.
  { eexists. split; [reflexivity | apply set_status_marked]. }
  split; [reflexivity|].
  rewrite (Hjin2 _ np Hget eq_refl) by (rewrite Hclock; exact Hov).
  rewrite registered_lookup_eq, Hacc. reflexivity.
Qed.

Lemma startup_recovers_rejected_registration_witness :
  let new_id := next_id (posts_db world_abc) in
  let w1 := step rejecting (Schedule request_later) world_abc in
  let w2 := step quiet Startup w1 in
  jobs w1 = jobs world_abc /\
  exists post,
    posts_db w1 !! new_id = Some post /\ status post = "scheduled" /\
    wall (scheduled_time post) = form_scheduled_time request_later /\
    normalized (scheduled_time post) = form_time request_later /\
    if overdue post (clock world_abc)
    then exists post', posts_db w2 !! new_id = Some post' /\
                       marked_posted post post'
    else posts_db w2 !! new_id = Some post /\
         jobs w2 !! _job_id new_id = Some (mk_Job (form_time request_later) new_id).
Proof.
  assert (Hne : uploaded_name rejecting request_later <> Some "") by discriminate.
  exact (startup_recovers_rejected_registration rejecting quiet request_later
           world_abc eq_refl eq_refl Hne world_abc_idle eq_refl eq_refl).
Defined.

(** ** The draft, continued *)

(** X16: the draft's [publish_post] acts only on a post whose status is
    "pending": that post is committed with status "posted", its other
    columns unchanged, and one notification is emitted.  For an id no post has, and for a post with any other status,
    "scheduled" included, it returns without changing anything. *)
Theorem draft_publish_post_behaviour (post_id : Z) (w : World) :
  session w = posts_db w ->
  (TempCodeRunnerFile.publish_post post_id w).2 = inr tt /\
  let w' := (TempCodeRunnerFile.publish_post post_id w).1 in
  match posts_db w !! post_id with
  | None => w' = w
  | Some post =>
      if decide (status post = "pending")
      then posts_db w' = <[post_id := set_status "posted" post]> (posts_db w) /\
           session w' = posts_db w' /\
           jobs w' = jobs w /\ uploads w' = uploads w /\
           notifications w' =
             notifications w ++ [("status_update", post_id, "posted")] /\
           exists post', posts_db w' !! post_id = Some post' /\
                         marked_posted post post'
      else w' = w
  end.
Proof.
  intros Hclean. rewrite <- Hclean.
  unfold TempCodeRunnerFile.publish_post, bind, query_get.
  destruct (session w !! post_id) as [post|] eqn:Hget; [|split; reflexivity].
  rewrite eqb_decide.
  destruct (decide (status post = "pending")) as [Hs|Hs].
  - rewrite bool_decide_eq_true_2 by exact Hs. cbn.
    split; [reflexivity|].
    rewrite (alter_present _ _ _ _ Hget).
    split; [reflexivity|]. split; [reflexivity|]. split; [reflexivity|].
    split; [reflexivity|]. split.
    + unfold notifications. cbn. rewrite !notifications_of_app. cbn.
      rewrite app_nil_r. reflexivity.
    + exists (set_status "posted" post).
      split; [apply lookup_insert_eq | apply set_status_marked].
  - rewrite bool_decide_eq_false_2 by exact Hs. split; reflexivity.
Qed.

Lemma draft_publish_post_behaviour_witness :
  (TempCodeRunnerFile.publish_post 2 world_abc).1 = world_abc.
Proof.
  pose proof (draft_publish_post_behaviour 2 world_abc eq_refl) as [_ H].
  exact H.
Defined.

(** The draft's registration is a plain [add_job]: with
    [replace_existing=True] no [ConflictingIdError] is raised, so the
    handler never runs. *)
Lemma draft_register_exact env run post_id jid w :
  TempCodeRunnerFile.register env run post_id jid w =
    if add_job_fails env jid
    then (record (CallAddJob jid run post_id) w, inl (JobStoreError jid))
    else (with_jobs (<[jid := mk_Job run post_id]> (jobs w))
            (record (CallAddJob jid run post_id) w), inr tt).
Proof.
  unfold TempCodeRunnerFile.register, try_except_conflict.
  rewrite add_job_replace. destruct (add_job_fails env jid); reflexivity.
Qed.

Lemma draft_schedule_exact timestamp env req w :
  method req = POST ->
  let new_id := next_id (session w) in
  let jid := TempCodeRunnerFile.job_id timestamp new_id (form_time req) in
  let new_post := mk_Post (form_title req) (form_content req) (form_platform req)
                    (form_time req) "pending"
                    (secure_filename env <$> truthy (files_image req)) in
  exists evs u,
    TempCodeRunnerFile.schedule timestamp env req w =
      ({| session := <[new_id := new_post]> (session w);
          posts_db := <[new_id := new_post]> (session w);
          jobs := if add_job_fails env jid then jobs w
                  else <[jid := mk_Job (form_time req) new_id]> (jobs w);
          uploads := u; clock := clock w;
          trace := trace w ++ evs ++
            [SessionAdd new_id; Commit; CallAddJob jid (form_time req) new_id] |},
       if add_job_fails env jid then inl (JobStoreError jid)
       else inr (Redirect "index")) /\
    (evs = [] \/ exists name, evs = [CallSave name]).
Proof.
  intros Hm new_id jid new_post. subst new_id jid new_post.
  unfold TempCodeRunnerFile.schedule. rewrite Hm.
  assert (Himg : exists evs u,
    (match truthy (files_image req) with
     | Some filename =>
         file_save (secure_filename env filename) >>
         ret (Some (secure_filename env filename))
     | None => ret None
     end) w =
    ({| session := session w; posts_db := posts_db w; jobs := jobs w;
        uploads := u; clock := clock w; trace := trace w ++ evs |},
     inr (secure_filename env <$> truthy (files_image req))) /\
    (evs = [] \/ exists name, evs = [CallSave name])).
  { destruct (truthy (files_image req)) as [filename|].
    - eexists [_], _. split; [unfold_M; reflexivity|]. right. eauto.
    - exists [], (uploads w). split; [|left; reflexivity].
      unfold ret. rewrite app_nil_r. destruct w; reflexivity. }
  destruct Himg as (evs & u & Himg & Hevs).
  exists evs, u. split; [|exact Hevs].
  erewrite bind_inr by exact Himg.
  erewrite bind_inr by reflexivity.
  erewrite bind_inr by reflexivity.
  unfold bind. rewrite draft_register_exact.
  destruct (add_job_fails env _); unfold ret, record, with_jobs,
    with_posts_db, with_session; cbn; rewrite <- !app_assoc; reflexivity.
Qed.

(** X17: a create in the draft.  The new row is committed with status
    "pending" before the job is registered, and the registration is not
    guarded against a failing job store: when the store rejects the job,
    [schedule] raises to the requester with the row already committed and no
    job stored.  The [ConflictingIdError] handler never runs: the scheduler
    is called exactly once, and never to remove a job. *)
Theorem draft_schedule_failure_propagates
    (timestamp : datetime -> Z) (env : Env) (req : Request) (w : World) :
  session w = posts_db w -> method req = POST ->
  let new_id := next_id (posts_db w) in
  let jid := TempCodeRunnerFile.job_id timestamp new_id (form_time req) in
  let r := TempCodeRunnerFile.schedule timestamp env req w in
  posts_db r.1 !! new_id =
    Some (mk_Post (form_title req) (form_content req) (form_platform req)
            (form_time req) "pending"
            (secure_filename env <$> truthy (files_image req))) /\
  (if add_job_fails env jid
   then r.2 = inl (JobStoreError jid) /\ jobs r.1 = jobs w
   else r.2 = inr (Redirect "index") /\
        jobs r.1 = <[jid := mk_Job (form_time req) new_id]> (jobs w)) /\
  exists evs,
    trace r.1 = trace w ++ evs ++
      [SessionAdd new_id; Commit; CallAddJob jid (form_time req) new_id] /\
    (evs = [] \/ exists name, evs = [CallSave name]).
Proof.
  intros Hclean Hm new_id jid r. subst new_id jid r. rewrite <- Hclean.
  destruct (draft_schedule_exact timestamp env req w Hm) as (evs & u & -> & Hevs).
  cbn [fst snd posts_db jobs trace].
  split; [apply lookup_insert_eq|]. split.
  - destruct (add_job_fails env _); split; reflexivity.
  - exists evs. split; [reflexivity | exact Hevs].
Qed.

Lemma draft_schedule_failure_propagates_witness :
  (TempCodeRunnerFile.schedule (fun d => wall d) rejecting request_later world_abc).2
    = inl (JobStoreError "post_4_95000000000") /\
  exists post,
    posts_db (TempCodeRunnerFile.schedule (fun d => wall d) rejecting
                request_later world_abc).1 !! 4 = Some post /\
    status post = "pending".
Proof.
  destruct (draft_schedule_failure_propagates (fun d => wall d) rejecting
              request_later world_abc eq_refl eq_refl) as (Hrow & Hres & _).
  cbn in Hres. split; [exact (proj1 Hres)|].
  eexists. split; [exact Hrow | reflexivity].
Defined.

Lemma for_each_raises {A} (P : Exn -> Prop) (l : list A) (body : A -> M unit) :
  (forall x w e, (body x w).2 = inl e -> P e) ->
  forall w e, (for_each l body w).2 = inl e -> P e.
Proof.
  intros Hbody. induction l as [|x l IH]; intros w e; simpl.
  - discriminate.
  - unfold bind. pose proof (Hbody x w) as Hx.
    destruct (body x w) as [w1 [e1|[]]]; cbn [snd] in *.
    + intros [= <-]. apply Hx. reflexivity.
    + apply IH.
Qed.

Lemma draft_publish_post_returns post_id w :
  (TempCodeRunnerFile.publish_post post_id w).2 = inr tt.
Proof.
  unfold TempCodeRunnerFile.publish_post, bind, query_get.
  destruct (session w !! post_id) as [post|]; [|reflexivity].
  destruct (String.eqb (status post) "pending"); reflexivity.
Qed.

(** The only exception the draft's loop body raises is the job store's
    rejection of a registration. *)
Lemma draft_setup_body_raises timestamp env row w e :
  (TempCodeRunnerFile.setup_body timestamp env row w).2 = inl e ->
  exists jid, e = JobStoreError jid /\ add_job_fails env jid = true.
Proof.
  destruct row as [i p]. unfold TempCodeRunnerFile.setup_body. cbn [fst snd].
  erewrite bind_inr by reflexivity.
  fold (normalized (scheduled_time p)).
  destruct (normalized_comparison p w) as (_ & _ & ->).
  destruct (overdue p (clock w)).
  - rewrite draft_publish_post_returns. discriminate.
  - rewrite draft_register_exact.
    destruct (add_job_fails env _) eqn:Hfail; [|discriminate].
    intros [= <-]. eauto.
Qed.

(** X18: the draft's [before_request] hook.  Once the flag is set the hook
    does nothing.  The flag is set exactly when the loop ran to its end; the
    only exception the hook raises is the job store's rejection of a
    registration, which ends the loop at that post, fails the request and
    leaves the flag unset, so that the next request runs the loop again. *)
Theorem draft_setup_runs_until_it_succeeds
    (timestamp : datetime -> Z) (env : Env) (w : World) (done : bool) :
  let r := TempCodeRunnerFile.setup_scheduler_once timestamp env (w, done) in
  (done = true -> r = ((w, true), inr tt)) /\
  (r.2 = inr tt ->
   r.1.2 = true /\
   TempCodeRunnerFile.setup_scheduler_once timestamp env r.1 = (r.1, inr tt)) /\
  (forall e, r.2 = inl e ->
     done = false /\ r.1.2 = false /\
     exists jid, e = JobStoreError jid /\ add_job_fails env jid = true).
Proof.
  unfold TempCodeRunnerFile.setup_scheduler_once. cbn [fst snd].
  destruct done.
  - split; [reflexivity|]. split; [intros _; split; reflexivity | discriminate].
  - split; [discriminate|].
    erewrite bind_inr by reflexivity.
    pose proof (for_each_raises
                  (fun e => exists jid, e = JobStoreError jid /\ add_job_fails env jid = true)
                  (filter (fun r : Z * Post => String.eqb (status r.2) "pending")
                     (rows_by_id (session w)))
                  (TempCodeRunnerFile.setup_body timestamp env)
                  (draft_setup_body_raises timestamp env) w) as Hraise.
    destruct (for_each _ _ w) as [w' [e|[]]]; cbn [fst snd] in *.
    + split; [discriminate|]. intros e' [= <-]. auto.
    + split; [intros _; split; reflexivity | discriminate].
Qed.

Lemma draft_setup_runs_until_it_succeeds_witness :
  TempCodeRunnerFile.setup_scheduler_once (fun d => wall d) quiet (world_abc, true)
    = ((world_abc, true), inr tt).
Proof.
  exact (proj1 (draft_setup_runs_until_it_succeeds (fun d => wall d) quiet
                  world_abc true) eq_refl).
Defined.

(** X20: [delete] in the draft does not guard the removal of the image.
    When the post's file is in the folder and [os.remove] fails, the draft's
    [delete] raises that error and the post stays: no row is deleted and
    nothing is committed.  In every other case the row is deleted and
    committed and the file, if there was one, is gone. *)
Theorem draft_delete_image_failure_keeps_post
    (env : Env) (post_id : Z) (w : World) (post : Post) :
  session w !! post_id = Some post ->
  let r := TempCodeRunnerFile.delete env post_id w in
  match stale_image post w with
  | Some old =>
      if os_remove_fails env old
      then r = (record (CallOsRemove old) w, inl (OSError old))
      else r.2 = inr (Redirect "index") /\ posts_db r.1 !! post_id = None /\
           uploads r.1 = uploads w ∖ {[ old ]}
  | None =>
      r.2 = inr (Redirect "index") /\ posts_db r.1 !! post_id = None /\
      uploads r.1 = uploads w
  end.
Proof.
  intros Hget. cbn zeta. unfold TempCodeRunnerFile.delete, stale_image.
  erewrite bind_inr by (apply query_get_or_404_found; exact Hget).
  destruct (truthy (image_filename post)) as [old|].
  - unfold_M. unfold os_remove.
    destruct (bool_decide (old ∈ uploads w)).
    + destruct (os_remove_fails env old); [reflexivity|]. cbn.
      split; [reflexivity|]. split; [apply lookup_delete_eq | reflexivity].
    + cbn. split; [reflexivity|]. split; [apply lookup_delete_eq | reflexivity].
  - unfold_M. cbn.
    split; [reflexivity|]. split; [apply lookup_delete_eq | reflexivity].
Qed.

Lemma draft_delete_image_failure_keeps_post_witness :
  TempCodeRunnerFile.delete readonly 2 world_abc =
    (record (CallOsRemove "b.png") world_abc, inl (OSError "b.png")).
Proof.
  exact (draft_delete_image_failure_keeps_post readonly 2 world_abc post_b eq_refl).
Defined.

(** ** Shared image files *)

(** X21: [delete] removes the image file by name without looking at the
    other posts.  When two posts record the same image name, the file is in
    the folder and [os.remove] succeeds, deleting one of them leaves the
    other stored, still recording that name, with the file gone. *)
Theorem delete_orphans_shared_image
    (env : Env) (i j : Z) (w : World) (post_i post_j : Post) (name : string) :
  session w = posts_db w -> i <> j ->
  posts_db w !! i = Some post_i -> posts_db w !! j = Some post_j ->
  image_filename post_i = Some name -> image_filename post_j = Some name ->
  name <> "" -> name ∈ uploads w -> os_remove_fails env name = false ->
  let w' := (delete env i w).1 in
  posts_db w' !! j = Some post_j /\
  image_filename post_j = Some name /\
  name ∉ uploads w'.
Proof.
  intros Hclean Hij Hi Hj Hni Hnj Hne Hin Hok. rewrite <- Hclean in Hi, Hj.
  rewrite (delete_exact env i w post_i Hi). cbn [fst posts_db uploads].
  assert (Hstale : stale_image post_i w = Some name).
  { unfold stale_image, truthy. rewrite Hni.
    destruct (String.eqb_spec name "") as [->|_]; [contradiction|].
    rewrite bool_decide_eq_true_2 by exact Hin. reflexivity. }
  rewrite Hstale, Hok.
  split; [rewrite lookup_delete_ne by exact Hij; exact Hj|].
  split; [exact Hnj|].
  rewrite elem_of_difference, elem_of_singleton. tauto.
Qed.

Lemma delete_orphans_shared_image_witness :
  posts_db (delete quiet 1 world_shared).1 !! 2 = Some (post_s "S2") /\
  image_filename (post_s "S2") = Some "s.png" /\
  "s.png" ∉ uploads (delete quiet 1 world_shared).1.
Proof.
  apply (delete_orphans_shared_image quiet 1 2 world_shared
           (post_s "S1") (post_s "S2") "s.png");
    try reflexivity; try discriminate.
Defined.

(** X19: an edit in the draft commits the submitted time but does not
    reach the scheduler: the row has the new time and the job store is as
    before, so a job registered for the post keeps its old fire time. *)
Theorem draft_edit_keeps_old_job
    (env : Env) (post_id : Z) (req : Request) (w : World) (post : Post) :
  session w !! post_id = Some post -> method req = POST ->
  let r := TempCodeRunnerFile.edit env post_id req w in
  r.2 = inr (Redirect "index") /\
  (exists post', posts_db r.1 !! post_id = Some post' /\
                 scheduled_time post' = form_time req /\
                 status post' = status post) /\
  jobs r.1 = jobs w.
Proof.
  intros Hget Hm. cbn zeta. unfold TempCodeRunnerFile.edit.
  erewrite bind_inr by (apply query_get_or_404_found; exact Hget).
  rewrite Hm. unfold_M.
  destruct (truthy (files_image req)) as [filename|]; cbn.
  - split; [reflexivity|]. split; [|reflexivity].
    rewrite (alter_present _ _ _ _ Hget).
    erewrite alter_present by apply lookup_insert_eq.
    rewrite lookup_insert_eq. eexists. split; [reflexivity|]. split; reflexivity.
  - split; [reflexivity|]. split; [|reflexivity].
    rewrite (alter_present _ _ _ _ Hget), lookup_insert_eq.
    eexists. split; [reflexivity|]. split; reflexivity.
Qed.

Lemma draft_edit_keeps_old_job_witness :
  (exists post', posts_db (TempCodeRunnerFile.edit quiet 3 request_post world_registered).1 !! 3
                   = Some post' /\
                 scheduled_time post' = form_time request_post /\
                 status post' = status post_c) /\
  jobs (TempCodeRunnerFile.edit quiet 3 request_post world_registered).1
    = jobs world_registered.
Proof.
  destruct (draft_edit_keeps_old_job quiet 3 request_post world_registered post_c
              eq_refl eq_refl) as (_ & Hrow & Hj).
  split; [exact Hrow | exact Hj].
Defined.
